(** * Resume shortlister: the document-to-vector matching core

    A shallow embedding of the two edge functions of the repository: the
    match run of [supabase/functions/match-resumes/index.ts] with its
    embedding service and its cosine similarity, and the parse-document
    function with its dispatch on the declared file type.  The properties of
    the specification that concern them follow the definitions.

    JavaScript numbers are kept behind the interface [Number].  Its instance
    [float_Number] is IEEE 754 binary64, the arithmetic the functions run on;
    every concrete evaluation below uses it.  Its instance [R_Number] is exact
    real arithmetic, in which the statements on ranges, norms and order are
    proved; what depends on no law of arithmetic is proved for every instance
    at once.

    Left out of the model: the CORS headers, [console.log] and
    [console.error], and the configuration read from the environment.  The
    record store is taken to carry out every write it is asked for; the
    storage client reports a failed write in its result, which the match run
    does not look at (it only logs the one of the resume update). *)

From Stdlib Require Import Floats Uint63.
From Stdlib Require Import Reals Lra Lia.
#[local] Close Scope float_scope.
#[local] Close Scope uint63_scope.
From Stdlib Require Import Ascii String List Permutation Sorted.
From stdpp Require Import gmap strings list.

(** ** JavaScript numbers *)

(** The operations of a JS [number] that the source uses: literals built from
    integers, [+ - * /], [Math.sqrt], [===], [<] and [<=] ([a > b] is
    [num_ltb b a], [a >= b] is [num_leb b a]). *)
Class Number (num : Type) : Type := {
  num_zero : num;
  num_of_nat : nat -> num;
  num_add : num -> num -> num;
  num_sub : num -> num -> num;
  num_mul : num -> num -> num;
  num_div : num -> num -> num;
  num_sqrt : num -> num;
  num_eqb : num -> num -> bool;
  num_ltb : num -> num -> bool;
  num_leb : num -> num -> bool
}.

(** IEEE 754 binary64: the numbers of the JavaScript engine. *)
#[export] Instance float_Number : Number PrimFloat.float := {|
  num_zero := PrimFloat.of_uint63 (Uint63.of_Z 0);
  num_of_nat := fun n => PrimFloat.of_uint63 (Uint63.of_Z (Z.of_nat n));
  num_add := PrimFloat.add;
  num_sub := PrimFloat.sub;
  num_mul := PrimFloat.mul;
  num_div := PrimFloat.div;
  num_sqrt := PrimFloat.sqrt;
  num_eqb := PrimFloat.eqb;
  num_ltb := PrimFloat.ltb;
  num_leb := PrimFloat.leb
|}.

Definition Reqb (a b : R) : bool := if Req_dec_T a b then true else false.
Definition Rltb (a b : R) : bool := if Rlt_dec a b then true else false.
Definition Rleb (a b : R) : bool := if Rle_dec a b then true else false.

(** Exact real arithmetic: the idealisation in which ranges are stated. *)
#[export] Instance R_Number : Number R := {|
  num_zero := 0%R;
  num_of_nat := INR;
  num_add := Rplus;
  num_sub := Rminus;
  num_mul := Rmult;
  num_div := Rdiv;
  num_sqrt := R_sqrt.sqrt;
  num_eqb := Reqb;
  num_ltb := Rltb;
  num_leb := Rleb
|}.

(** ** JavaScript strings

    A string is the sequence of its UTF-16 code units; [string] holds the
    units below 256, which is every character [cleanText] lets through. *)

Definition charCodeAt (c : ascii) : nat := nat_of_ascii c.

(** [String.prototype.toLowerCase] on one code unit below 256: [A-Z] and the
    Latin-1 capitals U+00C0..U+00DE (but the sign U+00D7) move up by 32. *)
Definition toLowerCase_unit (c : ascii) : ascii :=
  let n := nat_of_ascii c in
  if (((65 <=? n) && (n <=? 90)) || ((192 <=? n) && (n <=? 222) && negb (n =? 215)))%nat
  then ascii_of_nat (n + 32)
  else c.

Fixpoint toLowerCase (s : string) : string :=
  match s with
  | EmptyString => EmptyString
  | String c s' => String (toLowerCase_unit c) (toLowerCase s')
  end.

(** The class [\s] of a JS regular expression, below 256: TAB, LF, VT, FF,
    CR, SPACE and NBSP. *)
Definition isWhitespace (c : ascii) : bool :=
  let n := nat_of_ascii c in
  (((9 <=? n) && (n <=? 13)) || (n =? 32) || (n =? 160))%nat.

(** [s.split(/\s+/)]: the pieces between maximal runs of whitespace.  A run at
    the start or the end leaves an empty piece there, and the empty string
    splits into one empty piece.  [in_sep] tells that the previous unit
    belonged to a separator. *)
Fixpoint split_go (in_sep : bool) (s : string) : list string :=
  match s with
  | EmptyString => [EmptyString]
  | String c s' =>
      if isWhitespace c then
        if in_sep then split_go true s' else EmptyString :: split_go true s'
      else
        match split_go false s' with
        | w :: ws => String c w :: ws
        | [] => [String c EmptyString]
        end
  end.

Definition split_whitespace (s : string) : list string := split_go false s.

(** ** The embedding service and the similarity engine *)

Section Embedding.
Context {num : Type} `{Number num}.

(** [charCode / 1000] *)
Definition charWeight (c : ascii) : num :=
  num_div (num_of_nat (charCodeAt c)) (num_of_nat 1000).

(** The inner loop of [generateFallbackEmbedding]: [word] is what is left
    of the word from index [j] on;
    [embedding[(i + j) % embedding.length] += charCode / 1000]. *)
Fixpoint word_loop (i j : nat) (word : string) (embedding : list num) : list num :=
  match word with
  | EmptyString => embedding
  | String c rest =>
      word_loop i (S j) rest
        (alter (fun v => num_add v (charWeight c))
               ((i + j) mod length embedding) embedding)
  end.

(** The outer loop: [for (i = 0; i < words.length && i < embedding.length; i++)]. *)
Fixpoint words_loop (i : nat) (words : list string) (embedding : list num) : list num :=
  match words with
  | [] => embedding
  | word :: rest =>
      if (i <? length embedding)%nat
      then words_loop (S i) rest (word_loop i 0 word embedding)
      else embedding
  end.

(** [embedding.reduce((sum, val) => sum + val * val, 0)] *)
Definition sum_of_squares (v : list num) : num :=
  fold_left (fun sum val => num_add sum (num_mul val val)) v num_zero.

(** The vector before normalisation. *)
Definition accumulate (text : string) : list num :=
  words_loop 0 (split_whitespace (toLowerCase text)) (replicate 384 num_zero).

Definition generateFallbackEmbedding (text : string) : list num :=
  let embedding := accumulate text in
  let magnitude := num_sqrt (sum_of_squares embedding) in
  map (fun val => if num_ltb num_zero magnitude then num_div val magnitude else num_zero)
      embedding.

(** The loop of [calculateCosineSimilarity], from index [i] with [remaining]
    iterations left; the state is (dotProduct, magnitude1, magnitude2).
    Both vectors have the same length there, so no index is out of range. *)
Fixpoint cosine_loop (remaining i : nat) (vec1 vec2 : list num) (acc : num * num * num)
  : num * num * num :=
  match remaining with
  | O => acc
  | S remaining' =>
      let '(dotProduct, magnitude1, magnitude2) := acc in
      let a := nth i vec1 num_zero in
      let b := nth i vec2 num_zero in
      cosine_loop remaining' (S i) vec1 vec2
        (num_add dotProduct (num_mul a b),
         num_add magnitude1 (num_mul a a),
         num_add magnitude2 (num_mul b b))
  end.

Definition calculateCosineSimilarity (vec1 vec2 : list num) : num :=
  if negb (length vec1 =? length vec2)%nat then num_zero
  else
    let '(dotProduct, magnitude1, magnitude2) :=
      cosine_loop (length vec1) 0 vec1 vec2 (num_zero, num_zero, num_zero) in
    let magnitude1 := num_sqrt magnitude1 in
    let magnitude2 := num_sqrt magnitude2 in
    if num_eqb magnitude1 num_zero || num_eqb magnitude2 num_zero then num_zero
    else num_div dotProduct (num_mul magnitude1 magnitude2).

End Embedding.

(** ** Thrown values and a small monad for the handlers

    A handler threads the persistent store through its calls and may throw;
    what was written before a throw stays written. *)

(** What a [catch] receives: an [Error] object with its message, or some
    other value (the error objects of the storage client, for instance). *)
Inductive thrown : Type :=
| ErrorObject (message : string)
| OtherValue.

(** [error instanceof Error ? error.message : 'Unknown error'] *)
Definition error_message (error : thrown) : string :=
  match error with
  | ErrorObject message => message
  | OtherValue => "Unknown error"%string
  end.

Inductive outcome (A : Type) : Type :=
| Returned (a : A)
| Raised (error : thrown).
Arguments Returned {A} a.
Arguments Raised {A} error.

Module Handler.
Section Monad.
Context {W : Type}.

Definition M (A : Type) : Type := W -> W * outcome A.

Definition ret {A} (a : A) : M A := fun w => (w, Returned a).

Definition raise {A} (error : thrown) : M A := fun w => (w, Raised error).

Definition bind {A B} (c : M A) (k : A -> M B) : M B :=
  fun w =>
    match c w with
    | (w', Returned a) => k a w'
    | (w', Raised error) => (w', Raised error)
    end.

(** [try { body } catch (error) { handler }] *)
Definition try_catch {A} (body : M A) (handler : thrown -> M A) : M A :=
  fun w =>
    match body w with
    | (w', Returned a) => (w', Returned a)
    | (w', Raised error) => handler error w'
    end.

(** The result of an external call, taken into the handler. *)
Definition lift {A} (o : outcome A) : M A := fun w => (w, o).

Definition modify (f : W -> W) : M unit := fun w => (f w, Returned tt).

Definition gets {A} (f : W -> A) : M A := fun w => (w, Returned (f w)).
End Monad.
Arguments M : clear implicits.
End Handler.
Import Handler.

Notation "'let*' x ':=' c 'in' k" := (bind c (fun x => k))
  (at level 10, x name, c at level 100, k at level 200).
Notation "'do' c 'then' k" := (bind c (fun _ => k))
  (at level 10, c at level 100, k at level 200).

(** JS truthiness of a nullable text column: [null] and [''] are falsy. *)
Definition truthy_text (t : option string) : option string :=
  match t with
  | Some EmptyString => None
  | Some text => Some text
  | None => None
  end.

Definition is_truthy (t : option string) : bool :=
  match truthy_text t with
  | Some _ => true
  | None => false
  end.

(** [Array.prototype.sort(comparefn)]: the sort is stable, and for a
    consistent [comparefn] its result is the one stable arrangement, which
    insertion from the right computes.  [x] comes from before every element
    of [sorted] and moves behind [y] only when [comparefn(x, y) > 0]. *)
Section ArraySort.
Context {num : Type} `{Number num} {A : Type}.

Fixpoint sort_insert (comparefn : A -> A -> num) (x : A) (sorted : list A) : list A :=
  match sorted with
  | [] => [x]
  | y :: rest =>
      if num_ltb num_zero (comparefn x y)
      then y :: sort_insert comparefn x rest
      else x :: y :: rest
  end.

Definition Array_sort (comparefn : A -> A -> num) (l : list A) : list A :=
  fold_right (sort_insert comparefn) [] l.
End ArraySort.

(** ** The match run ([match-resumes/index.ts]) *)

Module MatchResumes.
Section Run.
Context {num : Type} `{Number num}.

(** *** Rows of the record store (the columns the function reads or writes) *)

Record job : Type := {
  job_id : string;
  description_text : option string;
  job_embedding : option (list num)
}.

Record resume : Type := {
  id : string;
  job_ref : string;
  candidate_name : option string;
  resume_text : option string;
  file_name : string;
  embedding : option (list num);
  status : string
}.

Record MatchRecord : Type := {
  m_job_id : string;
  m_resume_id : string;
  similarity_score : num;
  is_match : bool;
  details_threshold : num;
  details_processed_at : string
}.

(** An element of the [matches] array of the response. *)
Record match_entry : Type := {
  entry_resume_id : string;
  entry_candidate_name : option string;
  entry_file_name : string;
  entry_similarity_score : num
}.

(** What the run asks of its collaborators, in the order asked. *)
Inductive event : Type :=
| EmbeddingRequested (text : string)
| JobEmbeddingStored (jobId : string)
| ResumeEmbeddingStored (resumeId : string)
| MatchUpserted (record : MatchRecord).

(** The record store and the log of requests.  [jobs] is keyed by the
    primary key, [matches] by the pair of the uniqueness constraint
    [UNIQUE(job_id, resume_id)], [resumes] keeps the rows in load order. *)
Record world : Type := {
  jobs : gmap string job;
  resumes : list resume;
  matches : gmap (string * string) MatchRecord;
  calls : list event
}.

(** The collaborators outside the function: the embedding model
    ([new Supabase.ai.Session(name)] gives a session or throws, and
    [model.run] gives a vector or throws), the clock, and the error the
    store may report for the query of the resumes. *)
Record environment : Type := {
  ai_Session : string -> outcome (string -> outcome (list num));
  now_ISO : string;
  resumes_error : option thrown
}.

Variable env : environment.

Definition record_call (e : event) : M world unit :=
  modify (fun w => {| jobs := jobs w; resumes := resumes w;
                      matches := matches w; calls := calls w ++ [e] |}).

(** *** The embedding service *)

Definition generateEmbedding (text : string) : M world (list num) :=
  do record_call (EmbeddingRequested text) then
  try_catch
    (let* model := lift (ai_Session env "gte-small") in
     let* embedding := lift (model text) in
     ret embedding)
    (fun error => ret (generateFallbackEmbedding text)).

(** *** Store operations *)

Definition with_job_embedding (e : list num) (j : job) : job :=
  {| job_id := job_id j; description_text := description_text j;
     job_embedding := Some e |}.

Definition with_resume_embedding (e : list num) (r : resume) : resume :=
  {| id := id r; job_ref := job_ref r; candidate_name := candidate_name r;
     resume_text := resume_text r; file_name := file_name r;
     embedding := Some e; status := status r |}.

(** [from('jobs').update({ embedding }).eq('id', jobId)] *)
Definition update_job_embedding (jobId : string) (e : list num) : M world unit :=
  do record_call (JobEmbeddingStored jobId) then
  modify (fun w => {| jobs := alter (with_job_embedding e) jobId (jobs w);
                      resumes := resumes w; matches := matches w;
                      calls := calls w |}).

(** [from('resumes').update({ embedding }).eq('id', resume.id)] *)
Definition update_resume_embedding (resumeId : string) (e : list num) : M world unit :=
  do record_call (ResumeEmbeddingStored resumeId) then
  modify (fun w =>
    {| jobs := jobs w;
       resumes := map (fun r => if String.eqb (id r) resumeId
                                then with_resume_embedding e r else r)
                      (resumes w);
       matches := matches w; calls := calls w |}).

(** [from('matches').upsert(record, { onConflict: 'job_id,resume_id' })] *)
Definition upsert_match (record : MatchRecord) : M world unit :=
  do record_call (MatchUpserted record) then
  modify (fun w =>
    {| jobs := jobs w; resumes := resumes w;
       matches := <[(m_job_id record, m_resume_id record) := record]> (matches w);
       calls := calls w |}).

(** *** One turn of the loop over the resumes

    An embedding is a vector: what the store hands back as text is read
    with [JSON.parse] in the source, and the array that
    [generateEmbedding] returns is truthy, so the test
    [if (resumeEmbedding)] before the update always passes. *)

Definition process_resume (jobId : string) (threshold : num)
    (jobEmbedding : option (list num)) (found : list match_entry)
    (r : resume) : M world (list match_entry) :=
  if negb (is_truthy (resume_text r)) && negb (String.eqb (status r) "completed")
  then ret found
  else
    let* resumeEmbedding :=
      match embedding r, truthy_text (resume_text r) with
      | None, Some text =>
          let* e := generateEmbedding text in
          do update_resume_embedding (id r) e then
          ret (Some e)
      | cached, _ => ret cached
      end in
    match jobEmbedding, resumeEmbedding with
    | Some je, Some re =>
        let similarity := calculateCosineSimilarity je re in
        let isMatch := num_leb threshold similarity in
        do upsert_match
             {| m_job_id := jobId; m_resume_id := id r;
                similarity_score := similarity; is_match := isMatch;
                details_threshold := threshold;
                details_processed_at := now_ISO env |} then
        if isMatch
        then ret (found ++ [ {| entry_resume_id := id r;
                                entry_candidate_name := candidate_name r;
                                entry_file_name := file_name r;
                                entry_similarity_score := similarity |} ])
        else ret found
    | _, _ => ret found
    end.

Fixpoint process_resumes (jobId : string) (threshold : num)
    (jobEmbedding : option (list num)) (found : list match_entry)
    (rs : list resume) : M world (list match_entry) :=
  match rs with
  | [] => ret found
  | r :: rest =>
      let* found' := process_resume jobId threshold jobEmbedding found r in
      process_resumes jobId threshold jobEmbedding found' rest
  end.

(** [(a, b) => b.similarity_score - a.similarity_score] *)
Definition by_score_descending (a b : match_entry) : num :=
  num_sub (entry_similarity_score b) (entry_similarity_score a).

(** *** The handler *)

Record MatchRequest : Type := {
  jobId_of : string;
  threshold_of : option num
}.

Record request : Type := {
  method : string;
  json : outcome MatchRequest
}.

Record summary : Type := {
  sum_job_id : string;
  total_resumes : nat;
  matched_resumes : nat;
  sum_threshold : num;
  sum_matches : list match_entry
}.

Inductive body : Type :=
| Success (s : summary)
| Failure (error : string).

Record response : Type := {
  http_status : nat;
  payload : option body
}.

(** The default of [threshold = 0.6]. *)
Definition default_threshold : num := num_div (num_of_nat 6) (num_of_nat 10).

Definition match_run (req : MatchRequest) : M world summary :=
  let jobId := jobId_of req in
  let threshold := default default_threshold (threshold_of req) in
  let* found_job := gets (fun w => jobs w !! jobId) in
  match found_job with
  | None => raise (ErrorObject "Job not found")
  | Some j =>
      let* jobEmbedding :=
        match job_embedding j, truthy_text (description_text j) with
        | None, Some text =>
            let* e := generateEmbedding text in
            do update_job_embedding jobId e then
            ret (Some e)
        | cached, _ => ret cached
        end in
      let* rs := gets (fun w => List.filter (fun r => String.eqb (job_ref r) jobId)
                                      (resumes w)) in
      match resumes_error env with
      | Some error => raise error
      | None =>
          let* found := process_resumes jobId threshold jobEmbedding [] rs in
          let sorted := Array_sort by_score_descending found in
          ret {| sum_job_id := jobId;
                 total_resumes := length rs;
                 matched_resumes := length sorted;
                 sum_threshold := threshold;
                 sum_matches := sorted |}
      end
  end.

Definition handler (req : request) : M world response :=
  if String.eqb (method req) "OPTIONS"
  then ret {| http_status := 200; payload := None |}
  else
    try_catch
      (let* parsed := lift (json req) in
       let* s := match_run parsed in
       ret {| http_status := 200; payload := Some (Success s) |})
      (fun error =>
         ret {| http_status := 500;
                payload := Some (Failure (error_message error)) |}).
End Run.

Arguments job : clear implicits.
Arguments resume : clear implicits.
Arguments MatchRecord : clear implicits.
Arguments match_entry : clear implicits.
Arguments event : clear implicits.
Arguments world : clear implicits.
Arguments environment : clear implicits.
Arguments MatchRequest : clear implicits.
Arguments request : clear implicits.
Arguments summary : clear implicits.
Arguments body : clear implicits.
Arguments response : clear implicits.
End MatchResumes.

(** ** Text extraction (the parse-document function) *)

Module ParseDocument.

(** *** [cleanText] *)

Definition space : ascii := ascii_of_nat 32.

(** [[^\x20-\x7E\s]]: neither printable ASCII nor whitespace. *)
Definition unprintable (c : ascii) : bool :=
  let n := nat_of_ascii c in
  negb (((32 <=? n) && (n <=? 126))%nat || isWhitespace c).

Fixpoint replace_units (p : ascii -> bool) (s : string) : string :=
  match s with
  | EmptyString => EmptyString
  | String c s' => String (if p c then space else c) (replace_units p s')
  end.

(** [replace(/p+/g, ' ')]: every maximal run of units in [p] becomes one
    space; [in_run] tells that the previous unit was in [p]. *)
Fixpoint collapse_runs (p : ascii -> bool) (in_run : bool) (s : string) : string :=
  match s with
  | EmptyString => EmptyString
  | String c s' =>
      if p c then
        if in_run then collapse_runs p true s'
        else String space (collapse_runs p true s')
      else String c (collapse_runs p false s')
  end.

Fixpoint trim_start (s : string) : string :=
  match s with
  | String c s' => if isWhitespace c then trim_start s' else s
  | EmptyString => EmptyString
  end.

Fixpoint trim_end (s : string) : string :=
  match s with
  | EmptyString => EmptyString
  | String c s' =>
      match trim_end s' with
      | EmptyString => if isWhitespace c then EmptyString else String c EmptyString
      | rest => String c rest
      end
  end.

Definition trim (s : string) : string := trim_end (trim_start s).

Definition is_newline (c : ascii) : bool := (nat_of_ascii c =? 10)%nat.

Definition cleanText (text : string) : string :=
  trim (collapse_runs is_newline false
         (collapse_runs isWhitespace false
           (replace_units unprintable text))).

(** *** The handler *)

(** A row of [jobs] or [resumes], as far as the function writes it:
    [description_text] or [resume_text], [status] and [updated_at]. *)
Record document : Type := {
  text_column : option string;
  status : string;
  updated_at : string
}.

Record world : Type := {
  jobs : gmap string document;
  resumes : gmap string document
}.

(** Outside the function: the download of the file ([fetch] with
    [arrayBuffer]), [TextDecoder], the two parsers (which call the PDF and
    ZIP libraries and catch every error themselves), the clock, and the
    error the store may report for the update. *)
Record environment : Type := {
  fetch : string -> outcome string;
  decode : string -> string;
  parsePDF : string -> string;
  parseDOCX : string -> string;
  now_ISO : string;
  update_error : option thrown
}.

Record ParseRequest : Type := {
  fileUrl : string;
  fileType : string;
  documentId : string;
  documentType : string
}.

Record request : Type := {
  method : string;
  json : outcome ParseRequest
}.

Inductive body : Type :=
| Success (text : string) (length : nat)
| Failure (error : string).

Record response : Type := {
  http_status : nat;
  payload : option body
}.

Section Run.
Variable env : environment.

(** The chain of tests on [fileType]. *)
Definition extract (fileType buffer : string) : outcome string :=
  if String.eqb fileType "txt" || String.eqb fileType "text/plain" then
    Returned (decode env buffer)
  else if String.eqb fileType "pdf" || String.eqb fileType "application/pdf" then
    Returned (parsePDF env buffer)
  else if String.eqb fileType "docx"
       || String.eqb fileType
            "application/vnd.openxmlformats-officedocument.wordprocessingml.document" then
    Returned (parseDOCX env buffer)
  else if String.eqb fileType "doc" || String.eqb fileType "application/msword" then
    Returned "Legacy DOC format - please convert to DOCX or PDF"%string
  else
    Raised (ErrorObject ("Unsupported file type: " ++ fileType)%string).

Definition written (cleanedText : string) (d : document) : document :=
  {| text_column := Some cleanedText; status := "completed";
     updated_at := now_ISO env |}.

(** [from(tableName).update({...}).eq('id', documentId)] *)
Definition update_document (documentType documentId cleanedText : string)
  : M world unit :=
  match update_error env with
  | Some error => raise error
  | None =>
      modify (fun w =>
        if String.eqb documentType "job"
        then {| jobs := alter (written cleanedText) documentId (jobs w);
                resumes := resumes w |}
        else {| jobs := jobs w;
                resumes := alter (written cleanedText) documentId (resumes w) |})
  end.

Definition parse_run (req : ParseRequest) : M world body :=
  let* buffer := lift (fetch env (fileUrl req)) in
  let* extractedText := lift (extract (fileType req) buffer) in
  let cleanedText := cleanText extractedText in
  do update_document (documentType req) (documentId req) cleanedText then
  ret (Success cleanedText (String.length cleanedText)).

Definition handler (req : request) : M world response :=
  if String.eqb (method req) "OPTIONS"
  then ret {| http_status := 200; payload := None |}
  else
    try_catch
      (let* parsed := lift (json req) in
       let* b := parse_run parsed in
       ret {| http_status := 200; payload := Some b |})
      (fun error =>
         ret {| http_status := 500;
                payload := Some (Failure (error_message error)) |}).
End Run.

(** Whether one of the four extraction rules applies to the declared type. *)
Definition recognized (fileType : string) : bool :=
  existsb (String.eqb fileType)
    ["txt"; "text/plain"; "pdf"; "application/pdf"; "docx";
     "application/vnd.openxmlformats-officedocument.wordprocessingml.document";
     "doc"; "application/msword"]%string.

End ParseDocument.

(** ** The fallback algorithm as the specification words it

    Split the text on whitespace into words; for each word at index [i]
    (bounded by the vector length) and each character at index [j] within
    that word, add [charCode / 1000] to slot [(i + j) mod 384]; then divide
    every component by the Euclidean magnitude, leaving all components 0 when
    the magnitude is 0. *)

Module Reference.
Section Fallback.
Context {num : Type} `{Number num}.

(** What one word at index [i] adds, as (slot, amount), in order. *)
Definition word_contributions (i : nat) (word : string) : list (nat * num) :=
  imap (fun j c => ((i + j) mod 384, charWeight c)) (list_ascii_of_string word).

Definition contributions (words : list string) : list (nat * num) :=
  concat (imap word_contributions (take 384 words)).

(** A slot holds the amounts added to it, summed in the order added. *)
Definition slot (cs : list (nat * num)) (k : nat) : num :=
  fold_left num_add (map snd (filter (fun p => fst p = k) cs)) num_zero.

Definition accumulated (text : string) : list num :=
  map (slot (contributions (split_whitespace text))) (seq 0 384).

Definition magnitude (v : list num) : num :=
  num_sqrt (fold_left (fun sum val => num_add sum (num_mul val val)) v num_zero).

Definition fallback (text : string) : list num :=
  let v := accumulated text in
  let m := magnitude v in
  if num_eqb m num_zero then v else map (fun val => num_div val m) v.
End Fallback.
End Reference.

(** ** Auxiliary notions for the proofs *)

Section Contributions.
Context {num : Type} `{Number num}.

(** One addition into a slot, and a sequence of them. *)
Definition add_at (e : list num) (p : nat * num) : list num :=
  alter (fun v => num_add v (snd p)) (fst p) e.

Definition apply_all (cs : list (nat * num)) (e : list num) : list num :=
  fold_left add_at cs e.
End Contributions.

(** The sum of squares over the reals, from a starting value. *)
Definition squares_from (a : R) (v : list R) : R :=
  fold_left (fun sum val => (sum + val * val)%R) v a.

(** Two texts that differ only in the case of ASCII letters. *)
Definition is_ascii_capital (c : ascii) : bool :=
  let n := nat_of_ascii c in ((65 <=? n) && (n <=? 90))%nat.

Definition case_variant (c d : ascii) : Prop :=
  c = d
  \/ (is_ascii_capital c = true /\ nat_of_ascii d = nat_of_ascii c + 32)
  \/ (is_ascii_capital d = true /\ nat_of_ascii c = nat_of_ascii d + 32).

Inductive differ_only_in_case : string -> string -> Prop :=
| differ_empty : differ_only_in_case EmptyString EmptyString
| differ_unit (c d : ascii) (s t : string) :
    case_variant c d -> differ_only_in_case s t ->
    differ_only_in_case (String c s) (String d t).

(** The dot product and the Euclidean magnitude of the contract of the
    similarity engine, each as a sum of its own from left to right. *)
Section Vectors.
Context {num : Type} `{Number num}.

Definition dot_product (v1 v2 : list num) : num :=
  fold_left (fun sum p => num_add sum (num_mul (fst p) (snd p)))
            (combine v1 v2) num_zero.

Definition euclidean_magnitude (v : list num) : num :=
  num_sqrt (sum_of_squares v).
End Vectors.

(** The dot product over the reals, from a starting value. *)
Definition dot_from (d : R) (l : list (R * R)) : R :=
  fold_left (fun sum p => (sum + fst p * snd p)%R) l d.

(** ** The match run, read off its turns *)

Module MatchFacts.
Import MatchResumes.

Section Expected.
Context {num : Type} `{Number num}.
Variable env : environment num.

(** The primary path of the embedding service. *)
Definition primary_call (text : string) : outcome (list num) :=
  match ai_Session env "gte-small" with
  | Returned model => model text
  | Raised error => Raised error
  end.

(** The vector [generateEmbedding] hands back for a text. *)
Definition generated (text : string) : list num :=
  match primary_call text with
  | Returned e => e
  | Raised _ => generateFallbackEmbedding text
  end.

(** The guard at the head of the loop. *)
Definition skipped (r : resume num) : bool :=
  negb (is_truthy (resume_text r)) && negb (String.eqb (status r) "completed").

(** The vector a resume is compared with: the cached one, or the one
    generated from its text. *)
Definition resume_vector (r : resume num) : option (list num) :=
  match embedding r with
  | Some e => Some e
  | None => option_map generated (truthy_text (resume_text r))
  end.

Definition job_vector (j : job num) : option (list num) :=
  match job_embedding j with
  | Some e => Some e
  | None => option_map generated (truthy_text (description_text j))
  end.

(** The score of a resume, when the run computes one. *)
Definition score (jobEmbedding : option (list num)) (r : resume num) : option num :=
  if skipped r then None
  else
    match jobEmbedding, resume_vector r with
    | Some je, Some re => Some (calculateCosineSimilarity je re)
    | _, _ => None
    end.

Definition entry_of (r : resume num) (s : num) : match_entry num :=
  {| entry_resume_id := id r; entry_candidate_name := candidate_name r;
     entry_file_name := file_name r; entry_similarity_score := s |}.

(** The scored resumes at or above the threshold, in load order. *)
Definition matching_entries (threshold : num) (jobEmbedding : option (list num))
    (rs : list (resume num)) : list (match_entry num) :=
  flat_map (fun r => match score jobEmbedding r with
                     | Some s => if num_leb threshold s then [entry_of r s] else []
                     | None => []
                     end) rs.

(** The record a turn of the loop upserts for a scored resume. *)
Definition record_of (jobId : string) (threshold : num) (r : resume num) (s : num)
  : MatchRecord num :=
  {| m_job_id := jobId; m_resume_id := id r; similarity_score := s;
     is_match := num_leb threshold s; details_threshold := threshold;
     details_processed_at := now_ISO env |}.

Definition loaded (jobId : string) (w : world num) : list (resume num) :=
  List.filter (fun r => String.eqb (job_ref r) jobId) (resumes w).
End Expected.

(** The upserts among the requests of a run. *)
Definition upserted {num : Type} (rec : MatchRecord num) (w : world num) : Prop :=
  In (MatchUpserted rec) (calls w).
End MatchFacts.

(** ** Sample data on binary64 *)

Module Samples.
Import MatchResumes.

Definition unit_vector : list PrimFloat.float :=
  num_of_nat 1 :: replicate 383 num_zero.

Definition opposite_vector : list PrimFloat.float :=
  num_sub num_zero (num_of_nat 1) :: replicate 383 num_zero.

(** The embedding model cannot be reached. *)
Definition env_unavailable : environment PrimFloat.float :=
  {| ai_Session := fun _ => Raised (ErrorObject "Supabase is not defined");
     now_ISO := "2025-12-22T09:52:59.000Z";
     resumes_error := None |}.

Definition job1 : job PrimFloat.float :=
  {| job_id := "job-1";
     description_text := Some "Senior backend engineer, Go and distributed systems"%string;
     job_embedding := Some unit_vector |}.


(** A resume whose cached vector points against the vector of the job. *)
Definition resume_opposed : resume PrimFloat.float :=
  {| id := "resume-2"; job_ref := "job-1"; candidate_name := Some "Bob"%string;
     resume_text := Some "Pastry chef"%string; file_name := "bob.pdf";
     embedding := Some opposite_vector; status := "completed" |}.

(** Three resumes with cached vectors at cosine 0.6, 0.8 and 0.6 from the
    vector of the job, loaded in this order. *)
Definition vector_of (a b : nat) : list PrimFloat.float :=
  num_of_nat a :: num_of_nat b :: replicate 382 num_zero.

Definition resume_with (name : string) (v : list PrimFloat.float)
  : resume PrimFloat.float :=
  {| id := name; job_ref := "job-1"; candidate_name := None;
     resume_text := Some "Go and distributed systems"%string;
     file_name := (name ++ ".pdf")%string;
     embedding := Some v; status := "completed" |}.

Definition three_resumes : list (resume PrimFloat.float) :=
  [resume_with "resume-A" (vector_of 3 4);
   resume_with "resume-B" (vector_of 4 3);
   resume_with "resume-C" (vector_of 3 4)].

Definition matched (res : outcome (response PrimFloat.float))
  : list (string * PrimFloat.float) :=
  match res with
  | Returned {| payload := Some (Success s) |} =>
      map (fun e => (entry_resume_id e, entry_similarity_score e)) (sum_matches s)
  | _ => []
  end.

Definition world_of (rs : list (resume PrimFloat.float)) : world PrimFloat.float :=
  {| jobs := {[ "job-1"%string := job1 ]}; resumes := rs; matches := ∅; calls := [] |}.

Definition post (jobId : string) : request PrimFloat.float :=
  {| method := "POST";
     json := Returned {| jobId_of := jobId; threshold_of := None |} |}.
End Samples.

(** Order of the ranked list over the reals: an entry may stand before
    another when its score is not smaller. *)
Definition descending (a b : MatchResumes.match_entry R) : Prop :=
  (MatchResumes.entry_similarity_score b <= MatchResumes.entry_similarity_score a)%R.

(** The entries of a list that have a given score. *)
Definition with_score (x : R) (l : list (MatchResumes.match_entry R))
  : list (MatchResumes.match_entry R) :=
  List.filter (fun e => Reqb (MatchResumes.entry_similarity_score e) x) l.

(** ** Sample data over the reals *)

Module RealSamples.
Import MatchResumes.

Definition env_unavailable : environment R :=
  {| ai_Session := fun _ => Raised (ErrorObject "Supabase is not defined");
     now_ISO := "2025-12-22T09:52:59.000Z";
     resumes_error := None |}.

Definition job1 : job R :=
  {| job_id := "job-1"; description_text := Some "Pastry chef"%string;
     job_embedding := Some [1%R; 0%R] |}.

Definition resume_cached : resume R :=
  {| id := "resume-1"; job_ref := "job-1"; candidate_name := Some "Ada"%string;
     resume_text := Some "Pastry chef"%string; file_name := "ada.pdf";
     embedding := Some [1%R; 0%R]; status := "completed" |}.

Definition resume_pending : resume R :=
  {| id := "resume-2"; job_ref := "job-1"; candidate_name := None;
     resume_text := None; file_name := "bob.pdf";
     embedding := None; status := "pending" |}.

Definition world1 : world R :=
  {| jobs := {[ "job-1"%string := job1 ]};
     resumes := [resume_pending; resume_cached];
     matches := ∅; calls := [] |}.

(** A request with the threshold 0. *)
Definition request1 : MatchRequest R :=
  {| jobId_of := "job-1"; threshold_of := Some 0%R |}.

Definition score1 : R := calculateCosineSimilarity [1%R; 0%R] [1%R; 0%R].

Definition record1 : MatchRecord R :=
  {| m_job_id := "job-1"; m_resume_id := "resume-1"; similarity_score := score1;
     is_match := true; details_threshold := 0%R;
     details_processed_at := "2025-12-22T09:52:59.000Z" |}.

Definition entry1 : match_entry R :=
  {| entry_resume_id := "resume-1"; entry_candidate_name := Some "Ada"%string;
     entry_file_name := "ada.pdf"; entry_similarity_score := score1 |}.

Definition world1_after : world R :=
  {| jobs := {[ "job-1"%string := job1 ]};
     resumes := [resume_pending; resume_cached];
     matches := {[ ("job-1"%string, "resume-1"%string) := record1 ]};
     calls := [MatchUpserted record1] |}.

Definition summary1 : summary R :=
  {| sum_job_id := "job-1"; total_resumes := 2; matched_resumes := 1;
     sum_threshold := 0%R; sum_matches := [entry1] |}.
End RealSamples.

(** ** Sample data for the extraction *)

Module ParseSamples.
Import ParseDocument.

Definition parsers (fetch : string -> outcome string) : environment :=
  {| fetch := fetch;
     decode := fun buffer => buffer;
     parsePDF := fun _ => "No text content found in PDF."%string;
     parseDOCX := fun _ => "Could not extract text from DOCX file."%string;
     now_ISO := "2025-12-22T09:52:59.000Z";
     update_error := None |}.

(** The file can be downloaded. *)
Definition env_online : environment :=
  parsers (fun _ => Returned "PNG"%string).

(** The download fails: [fetch] throws. *)
Definition env_offline : environment :=
  parsers (fun _ => Raised (ErrorObject "Invalid URL")).

(** The store refuses the update. *)
Definition env_store_down : environment :=
  {| fetch := fun _ => Returned "PNG"%string;
     decode := fun buffer => buffer;
     parsePDF := fun _ => "No text content found in PDF."%string;
     parseDOCX := fun _ => "Could not extract text from DOCX file."%string;
     now_ISO := "2025-12-22T09:52:59.000Z";
     update_error := Some OtherValue |}.

Definition pending : document :=
  {| text_column := None; status := "pending";
     updated_at := "2025-12-22T09:00:00.000Z" |}.

Definition world0 : world :=
  {| jobs := ∅; resumes := {[ "resume-1"%string := pending ]} |}.

Definition png : ParseRequest :=
  {| fileUrl := ""; fileType := "image/png"; documentId := "resume-1";
     documentType := "resume" |}.

Definition post (r : ParseRequest) : request :=
  {| method := "POST"; json := Returned r |}.
End ParseSamples.

(** ** Notions for the further properties *)

(** A text made of whitespace only (the empty text included). *)
Fixpoint blank (s : string) : bool :=
  match s with
  | EmptyString => true
  | String c s' => isWhitespace c && blank s'
  end.

(** [n] copies of a piece of text, one after the other. *)
Fixpoint repeat_text (n : nat) (piece : string) : string :=
  match n with
  | O => EmptyString
  | S n' => (piece ++ repeat_text n' piece)%string
  end.

(** The store after the turns of a run, written out. *)
Module RunEffects.
Import MatchResumes MatchFacts.

Section Effects.
Context {num : Type} `{Number num}.
Variable env : environment num.

(** The text an embedding is generated from during the turn of a resume:
    there is one when no vector is cached and the text is truthy. *)
Definition needs_embedding (r : resume num) : option string :=
  match embedding r with
  | Some _ => None
  | None => truthy_text (resume_text r)
  end.

Definition job_needs_embedding (j : job num) : option string :=
  match job_embedding j with
  | Some _ => None
  | None => truthy_text (description_text j)
  end.

(** The row of a resume once its turn has cached what it generated. *)
Definition cached (r : resume num) : resume num :=
  match needs_embedding r with
  | Some text => with_resume_embedding (generated env text) r
  | None => r
  end.


(** What the turn of [r] does to a row [x] of the table of resumes. *)
Definition turn_on_row (r x : resume num) : resume num :=
  match needs_embedding r with
  | Some text =>
      if String.eqb (id x) (id r)
      then with_resume_embedding (generated env text) x
      else x
  | None => x
  end.

Definition turns_on_row (rs : list (resume num)) (x : resume num) : resume num :=
  fold_left (fun x r => turn_on_row r x) rs x.

(** The requests of the turn of [r], in order. *)
Definition turn_requests (jobId : string) (threshold : num)
    (je : option (list num)) (r : resume num) : list (event num) :=
  match needs_embedding r with
  | Some text => [EmbeddingRequested text; ResumeEmbeddingStored (id r)]
  | None => []
  end
  ++ match score env je r with
     | Some x => [MatchUpserted (record_of env jobId threshold r x)]
     | None => []
     end.

(** The world after the turn of [r]. *)
Definition after_turn (jobId : string) (threshold : num)
    (je : option (list num)) (w : world num) (r : resume num) : world num :=
  {| jobs := jobs w;
     resumes := map (turn_on_row r) (resumes w);
     matches := match score env je r with
                | Some x => <[(jobId, id r) := record_of env jobId threshold r x]>
                              (matches w)
                | None => matches w
                end;
     calls := calls w ++ turn_requests jobId threshold je r |}.

(** The world after the step on the embedding of the job. *)
Definition after_job_step (jobId : string) (j : job num) (w : world num) : world num :=
  match job_needs_embedding j with
  | Some text =>
      {| jobs := alter (with_job_embedding (generated env text)) jobId (jobs w);
         resumes := resumes w; matches := matches w;
         calls := calls w ++ [EmbeddingRequested text; JobEmbeddingStored jobId] |}
  | None => w
  end.

(** The records the turns upsert, with their keys, in order. *)
Definition upserts (jobId : string) (threshold : num) (je : option (list num))
    (rs : list (resume num)) : list ((string * string) * MatchRecord num) :=
  flat_map (fun r => match score env je r with
                     | Some x => [((jobId, id r), record_of env jobId threshold r x)]
                     | None => []
                     end) rs.

Definition insert_all (ps : list ((string * string) * MatchRecord num))
    (m : gmap (string * string) (MatchRecord num))
  : gmap (string * string) (MatchRecord num) :=
  fold_left (fun m p => <[fst p := snd p]> m) ps m.

(** The record written last under a key, if any. *)
Fixpoint last_written (ps : list ((string * string) * MatchRecord num))
    (k : string * string) : option (MatchRecord num) :=
  match ps with
  | [] => None
  | p :: rest =>
      match last_written rest k with
      | Some v => Some v
      | None => if decide (fst p = k) then Some (snd p) else None
      end
  end.

(** A row of the resumes without its embedding. *)
Definition without_embedding (r : resume num) : resume num :=
  {| id := id r; job_ref := job_ref r; candidate_name := candidate_name r;
     resume_text := resume_text r; file_name := file_name r;
     embedding := None; status := status r |}.



Definition is_embedding_request (e : event num) : bool :=
  match e with
  | EmbeddingRequested _ => true
  | _ => false
  end.
End Effects.
End RunEffects.

(** The text of an embedding request. *)
Definition requested_text {num : Type} (e : MatchResumes.event num) : option string :=
  match e with
  | MatchResumes.EmbeddingRequested text => Some text
  | _ => None
  end.

(** Scenario A of the specification on binary64: a job and a resume with the
    same text, nothing cached, the embedding model out of reach. *)
Module ScenarioA.
Import MatchResumes.

Definition text : string := "Senior backend engineer, Go and distributed systems".

Definition job_a : job PrimFloat.float :=
  {| job_id := "job-1"; description_text := Some text; job_embedding := None |}.

Definition resume_a : resume PrimFloat.float :=
  {| id := "resume-1"; job_ref := "job-1"; candidate_name := Some "Ada"%string;
     resume_text := Some text; file_name := "ada.pdf";
     embedding := None; status := "completed" |}.

Definition world_a : world PrimFloat.float :=
  {| jobs := {[ "job-1"%string := job_a ]}; resumes := [resume_a];
     matches := ∅; calls := [] |}.

Definition stored_score (w : world PrimFloat.float) : option PrimFloat.float :=
  option_map similarity_score (matches w !! ("job-1"%string, "resume-1"%string)).
End ScenarioA.

(** A run on binary64 over four resumes: two with cached vectors, one still
    pending without text, one with text and no vector yet. *)
Module RunSamples.
Import MatchResumes.

Definition resume_pending : resume PrimFloat.float :=
  {| id := "resume-P"; job_ref := "job-1"; candidate_name := None;
     resume_text := None; file_name := "p.pdf";
     embedding := None; status := "pending" |}.

Definition resume_fresh : resume PrimFloat.float :=
  {| id := "resume-T"; job_ref := "job-1"; candidate_name := Some "Tess"%string;
     resume_text := Some "Go and distributed systems"%string; file_name := "t.txt";
     embedding := None; status := "completed" |}.

Definition four_resumes : list (resume PrimFloat.float) :=
  [Samples.resume_with "resume-A" (Samples.vector_of 3 4);
   Samples.resume_with "resume-B" (Samples.vector_of 4 3);
   resume_pending; resume_fresh].

Definition world4 : world PrimFloat.float := Samples.world_of four_resumes.

Definition request1 : MatchRequest PrimFloat.float :=
  {| jobId_of := "job-1"; threshold_of := None |}.

Definition world4_after : world PrimFloat.float :=
  fst (match_run Samples.env_unavailable request1 world4).

Definition no_summary : summary PrimFloat.float :=
  {| sum_job_id := ""; total_resumes := 0; matched_resumes := 0;
     sum_threshold := num_zero; sum_matches := [] |}.

Definition summary4 : summary PrimFloat.float :=
  match snd (match_run Samples.env_unavailable request1 world4) with
  | Returned s => s
  | Raised _ => no_summary
  end.


(** The store reports an error for the query of the resumes. *)
Definition env_store_error : environment PrimFloat.float :=
  {| ai_Session := fun _ => Raised (ErrorObject "Supabase is not defined");
     now_ISO := "2025-12-22T09:52:59.000Z";
     resumes_error := Some OtherValue |}.
End RunSamples.

(** The shape of a cleaned text: every unit is a space or a graphic ASCII
    character, no space follows a space, and no space stands at either end. *)
Module TextShape.

Definition is_space (c : ascii) : bool := (nat_of_ascii c =? 32)%nat.

Definition graphic (c : ascii) : bool :=
  let n := nat_of_ascii c in ((33 <=? n) && (n <=? 126))%nat.

Fixpoint all_units (p : ascii -> bool) (s : string) : bool :=
  match s with
  | EmptyString => true
  | String c s' => p c && all_units p s'
  end.

(** [after_space]: a space may not come next. *)
Fixpoint spaced (after_space : bool) (s : string) : bool :=
  match s with
  | EmptyString => true
  | String c s' =>
      if is_space c then negb after_space && spaced true s'
      else graphic c && spaced false s'
  end.

Fixpoint ends_in_space (s : string) : bool :=
  match s with
  | EmptyString => false
  | String c EmptyString => is_space c
  | String _ s' => ends_in_space s'
  end.

Definition tidy (s : string) : bool := spaced true s && negb (ends_in_space s).

End TextShape.

(** The upload forms of the front end ([CreateJob.tsx]): a file is taken
    when [validTypes.includes(file.type)], and [file.type] is what the form
    then sends to the extraction function as [fileType]. *)
Module UploadForm.

Definition validTypes : list string :=
  ["application/pdf";
   "application/vnd.openxmlformats-officedocument.wordprocessingml.document";
   "application/msword";
   "text/plain"]%string.

(** [Array.prototype.includes] on strings. *)
Definition includes (l : list string) (x : string) : bool :=
  existsb (String.eqb x) l.

Definition parse_request (fileUrl type documentId documentType : string)
  : ParseDocument.ParseRequest :=
  {| ParseDocument.fileUrl := fileUrl; ParseDocument.fileType := type;
     ParseDocument.documentId := documentId;
     ParseDocument.documentType := documentType |}.

End UploadForm.

(** * Properties *)

(** Splitting behaves as [String.prototype.split] does on the usual cases. *)
Example split_plain : split_whitespace "ab  cd" = ["ab"; "cd"].
Proof. reflexivity. Qed.

Example split_edges : split_whitespace " a " = [""; "a"; ""].
Proof. reflexivity. Qed.

Example split_empty : split_whitespace "" = [""].
Proof. reflexivity. Qed.

Example lower_case_units : toLowerCase "Go, C++ & SQL" = "go, c++ & sql"%string.
Proof. reflexivity. Qed.

(** ** The accumulation loops *)

Section AccumulationFacts.
Context {num : Type} `{Number num}.

#[local] Arguments Nat.modulo : simpl never.

Lemma apply_all_app cs1 cs2 e :
  apply_all (cs1 ++ cs2) e = apply_all cs2 (apply_all cs1 e).
Proof. unfold apply_all. apply fold_left_app. Qed.

Lemma length_apply_all cs e : length (apply_all cs e) = length e.
Proof.
  revert e. induction cs as [|p cs IH]; intros e; simpl; [reflexivity|].
  rewrite IH. unfold add_at. apply length_alter.
Qed.

Lemma word_loop_apply_all word i j e :
  length e = 384 ->
  word_loop i j word e
  = apply_all (imap (fun j' c => ((i + (j + j')) mod 384, charWeight c))
                    (list_ascii_of_string word)) e.
Proof.
  revert j e. induction word as [|c rest IH]; intros j e He; simpl; [reflexivity|].
  rewrite IH by (rewrite length_alter; exact He).
  unfold add_at. simpl. rewrite He, Nat.add_0_r.
  f_equal. apply imap_ext. intros j' c' _. simpl.
  do 2 f_equal. lia.
Qed.

Lemma word_loop_contributions word i e :
  length e = 384 ->
  word_loop i 0 word e = apply_all (Reference.word_contributions i word) e.
Proof.
  intros He. rewrite word_loop_apply_all by exact He. reflexivity.
Qed.

Lemma words_loop_apply_all words i e :
  length e = 384 ->
  words_loop i words e
  = apply_all (concat (imap (fun i' w => Reference.word_contributions (i + i') w)
                            (take (384 - i) words))) e.
Proof.
  revert i e. induction words as [|w ws IH]; intros i e He; simpl.
  - rewrite take_nil. reflexivity.
  - rewrite He. destruct (Nat.ltb_spec i 384) as [Hlt|Hge].
    + replace (384 - i) with (S (384 - S i)) by lia. simpl.
      rewrite apply_all_app.
      rewrite Nat.add_0_r.
      rewrite <- word_loop_contributions by exact He.
      rewrite IH.
      * f_equal. f_equal. apply imap_ext. intros i' w' _. simpl.
        f_equal. lia.
      * rewrite word_loop_contributions by exact He.
        rewrite length_apply_all. exact He.
    + replace (384 - i) with 0 by lia. reflexivity.
Qed.

Lemma apply_all_lookup cs e k x :
  e !! k = Some x ->
  apply_all cs e !! k
  = Some (fold_left num_add (map snd (filter (fun p => fst p = k) cs)) x).
Proof.
  revert e x. induction cs as [|[k' y] cs IH]; intros e x Hk; simpl; [exact Hk|].
  rewrite filter_cons. simpl. destruct (decide (k' = k)) as [->|Hne].
  - simpl. apply IH. unfold add_at. simpl.
    rewrite list_lookup_alter_eq, Hk. reflexivity.
  - apply IH. unfold add_at. simpl.
    rewrite list_lookup_alter_ne by exact Hne. exact Hk.
Qed.

Lemma apply_all_slots cs :
  apply_all cs (replicate 384 num_zero) = map (Reference.slot cs) (seq 0 384).
Proof.
  apply list_eq. intros k.
  destruct (Nat.lt_ge_cases k 384) as [Hlt|Hge].
  - rewrite (apply_all_lookup cs _ k num_zero)
      by (apply lookup_replicate_2; exact Hlt).
    change (map (Reference.slot cs) (seq 0 384)) with (Reference.slot cs <$> seq 0 384).
    rewrite list_lookup_fmap, lookup_seq_lt by exact Hlt. reflexivity.
  - rewrite !lookup_ge_None_2; [reflexivity| |].
    + rewrite length_map, length_seq. exact Hge.
    + rewrite length_apply_all, length_replicate. exact Hge.
Qed.

(** The loops of the source add, slot by slot and in the same order, what
    the specification's wording adds, once the text is in lower case. *)
Lemma accumulate_reference text :
  accumulate text = Reference.accumulated (toLowerCase text).
Proof.
  unfold accumulate, Reference.accumulated.
  rewrite words_loop_apply_all by apply length_replicate.
  rewrite <- apply_all_slots. reflexivity.
Qed.

Lemma length_accumulate text : length (accumulate text) = 384.
Proof.
  unfold accumulate. rewrite words_loop_apply_all by apply length_replicate.
  rewrite length_apply_all. apply length_replicate.
Qed.
End AccumulationFacts.

(** ** Exact arithmetic: sums of squares and normalisation *)

Section RealFacts.
#[local] Open Scope R_scope.

Lemma Rltb_true a b : Rltb a b = true <-> a < b.
Proof. unfold Rltb. destruct (Rlt_dec a b); split; intros; try lra; discriminate. Qed.

Lemma Rltb_false a b : Rltb a b = false <-> b <= a.
Proof. unfold Rltb. destruct (Rlt_dec a b); split; intros; try lra; discriminate. Qed.

Lemma Rleb_true a b : Rleb a b = true <-> a <= b.
Proof. unfold Rleb. destruct (Rle_dec a b); split; intros; try lra; discriminate. Qed.

Lemma Rleb_false a b : Rleb a b = false <-> b < a.
Proof. unfold Rleb. destruct (Rle_dec a b); split; intros; try lra; discriminate. Qed.

Lemma Reqb_true a b : Reqb a b = true <-> a = b.
Proof. unfold Reqb. destruct (Req_dec_T a b); split; intros; try lra; discriminate. Qed.

Lemma Reqb_false a b : Reqb a b = false <-> a <> b.
Proof.
  unfold Reqb. destruct (Req_dec_T a b); split; intros; try discriminate;
    try reflexivity; try assumption; contradiction.
Qed.

Lemma sum_of_squares_R v : sum_of_squares (num := R) v = squares_from 0 v.
Proof. reflexivity. Qed.

Lemma squares_from_shift a v : squares_from a v = a + squares_from 0 v.
Proof.
  revert a. induction v as [|x v IH]; intros a; unfold squares_from in *; simpl.
  - lra.
  - rewrite (IH (a + x * x)), (IH (0 + x * x)). lra.
Qed.

Lemma squares_from_cons x v : squares_from 0 (x :: v) = x * x + squares_from 0 v.
Proof.
  unfold squares_from at 1. simpl. fold (squares_from (0 + x * x) v).
  rewrite squares_from_shift. lra.
Qed.

Lemma squares_nonneg v : 0 <= squares_from 0 v.
Proof.
  induction v as [|x v IH].
  - unfold squares_from. simpl. lra.
  - rewrite squares_from_cons. pose proof (Rle_0_sqr x) as Hx. unfold Rsqr in Hx. lra.
Qed.

Lemma squares_zero v : squares_from 0 v = 0 <-> Forall (fun x => x = 0) v.
Proof.
  induction v as [|x v IH].
  - split; intros; [constructor | reflexivity].
  - rewrite squares_from_cons. pose proof (squares_nonneg v) as Hv.
    pose proof (Rle_0_sqr x) as Hx. unfold Rsqr in Hx. split.
    + intros Hs. assert (x * x = 0) as Hxx by lra.
      apply Rmult_integral in Hxx. constructor; [lra|]. apply IH. lra.
    + intros Hall. inversion Hall as [|? ? H0 Hrest]; subst.
      apply IH in Hrest. lra.
Qed.

Lemma squares_scaled m v :
  m <> 0 -> squares_from 0 (map (fun val => val / m) v) = squares_from 0 v / (m * m).
Proof.
  intros Hm. induction v as [|x v IH].
  - unfold squares_from. simpl. field. exact Hm.
  - rewrite map_cons, !squares_from_cons, IH. field. exact Hm.
Qed.

Lemma map_zero_of_zeros (v : list R) :
  Forall (fun x => x = 0) v -> map (fun _ => 0) v = v.
Proof.
  induction 1 as [|x v Hx _ IH]; simpl; [reflexivity|]. rewrite IH, Hx. reflexivity.
Qed.


(** The magnitude is positive unless every accumulated component is 0. *)
Lemma magnitude_cases (v : list R) :
  let m := R_sqrt.sqrt (squares_from 0 v) in
  (0 < m /\ ~ Forall (fun x => x = 0) v) \/ (m = 0 /\ Forall (fun x => x = 0) v).
Proof.
  intros m. pose proof (squares_nonneg v) as Hs.
  pose proof (sqrt_pos (squares_from 0 v)) as Hm. fold m in Hm.
  destruct (Req_dec_T m 0) as [H0|Hne].
  - right. split; [exact H0|]. apply squares_zero.
    apply sqrt_eq_0; assumption.
  - left. split; [lra|]. intros Hall. apply squares_zero in Hall.
    apply Hne. unfold m. rewrite Hall. apply sqrt_0.
Qed.

Lemma fallback_unfold_R text :
  generateFallbackEmbedding (num := R) text
  = map (fun val => if Rltb 0 (R_sqrt.sqrt (squares_from 0 (accumulate text)))
                    then val / R_sqrt.sqrt (squares_from 0 (accumulate text))
                    else 0)
        (accumulate text).
Proof. reflexivity. Qed.

Lemma fallback_positive text :
  0 < R_sqrt.sqrt (squares_from 0 (accumulate text)) ->
  generateFallbackEmbedding (num := R) text
  = map (fun val => val / R_sqrt.sqrt (squares_from 0 (accumulate text)))
        (accumulate text).
Proof.
  intros Hm. rewrite fallback_unfold_R.
  apply (proj2 (Rltb_true _ _)) in Hm. rewrite Hm. reflexivity.
Qed.

Lemma fallback_zero text :
  R_sqrt.sqrt (squares_from 0 (accumulate text)) = 0 ->
  generateFallbackEmbedding (num := R) text = map (fun _ => 0) (accumulate text).
Proof.
  intros Hm. rewrite fallback_unfold_R, Hm.
  replace (Rltb 0 0) with false; [reflexivity|].
  symmetry. apply Rltb_false. lra.
Qed.

(** When the magnitude is positive, the squares of the components of the
    fallback vector add up to 1. *)
Lemma fallback_squares_one (text : string) :
  0 < R_sqrt.sqrt (squares_from 0 (accumulate (num := R) text)) ->
  squares_from 0 (generateFallbackEmbedding (num := R) text) = 1.
Proof.
  intros Hm. rewrite (fallback_positive text Hm), squares_scaled by lra.
  rewrite sqrt_sqrt by apply squares_nonneg.
  assert (squares_from 0 (accumulate (num := R) text) <> 0) as Hne.
  { intros H0. rewrite H0, sqrt_0 in Hm. lra. }
  field. exact Hne.
Qed.
End RealFacts.

(** ** The fallback embedding *)

Lemma toLowerCase_unit_capital (c d : ascii) :
  is_ascii_capital c = true -> nat_of_ascii d = nat_of_ascii c + 32 ->
  toLowerCase_unit c = d /\ toLowerCase_unit d = d.
Proof.
  unfold is_ascii_capital, toLowerCase_unit. cbv zeta. intros Hc Hd.
  split.
  - rewrite Hc, orb_true_l, <- Hd. apply ascii_nat_embedding.
  - apply andb_true_iff in Hc as [Hlo Hhi].
    apply Nat.leb_le in Hlo, Hhi. rewrite Hd.
    replace (nat_of_ascii c + 32 <=? 90)%nat with false
      by (symmetry; apply Nat.leb_gt; lia).
    replace (192 <=? nat_of_ascii c + 32)%nat with false
      by (symmetry; apply Nat.leb_gt; lia).
    rewrite andb_false_r. reflexivity.
Qed.

Lemma toLowerCase_unit_variant (c d : ascii) :
  case_variant c d -> toLowerCase_unit c = toLowerCase_unit d.
Proof.
  intros [-> | [[Hc Hd] | [Hd Hc]]]; [reflexivity | |].
  - destruct (toLowerCase_unit_capital c d Hc Hd) as [-> ->]. reflexivity.
  - destruct (toLowerCase_unit_capital d c Hd Hc) as [-> ->]. reflexivity.
Qed.

Lemma toLowerCase_differ_only_in_case (s t : string) :
  differ_only_in_case s t -> toLowerCase s = toLowerCase t.
Proof.
  induction 1 as [|c d s t Hcd _ IH]; simpl; [reflexivity|].
  rewrite IH, (toLowerCase_unit_variant c d Hcd). reflexivity.
Qed.

(** C10. [generateFallbackEmbedding] does not see the case of ASCII letters:
    two texts that differ only there get the same vector, whatever the
    arithmetic, because the text is put in lower case before it is split. *)
Theorem fallback_case_insensitive {num : Type} `{Number num} (s t : string) :
  differ_only_in_case s t ->
  generateFallbackEmbedding s = generateFallbackEmbedding t.
Proof.
  intros Hst. unfold generateFallbackEmbedding, accumulate.
  rewrite (toLowerCase_differ_only_in_case s t Hst). reflexivity.
Qed.

Lemma fallback_case_insensitive_witness :
  differ_only_in_case "Go" "gO"
  /\ generateFallbackEmbedding (num := PrimFloat.float) "Go"
     = generateFallbackEmbedding "gO".
Proof.
  assert (differ_only_in_case "Go" "gO") as Hd.
  { constructor; [right; left; split; reflexivity|].
    constructor; [right; right; split; reflexivity|].
    constructor. }
  split; [exact Hd|]. apply (fallback_case_insensitive "Go" "gO"). exact Hd.
Defined.



(** C3 as stated fails: the source lowers the case first, the wording of the
    specification does not, and on binary64 the two give different vectors
    for a text with a capital. *)
Lemma fallback_differs_from_reference_on_capitals :
  generateFallbackEmbedding (num := PrimFloat.float) "Ab"
  <> Reference.fallback (num := PrimFloat.float) "Ab".
Proof.
  intros Heq.
  apply (f_equal (fun v => PrimFloat.ltb (hd num_zero v)
                             (num_div (num_of_nat 6) (num_of_nat 10)))) in Heq.
  vm_compute in Heq. discriminate Heq.
Qed.

(** C3, amended. In exact arithmetic [generateFallbackEmbedding] computes the
    reference algorithm of the specification applied to the text in lower
    case. *)
Theorem fallback_is_reference_on_lower_case (text : string) :
  generateFallbackEmbedding (num := R) text
  = Reference.fallback (num := R) (toLowerCase text).
Proof.
  unfold Reference.fallback, Reference.magnitude.
  rewrite <- accumulate_reference.
  change (fold_left _ (accumulate text) num_zero)
    with (squares_from 0 (accumulate (num := R) text)).
  change (num_sqrt ?x) with (R_sqrt.sqrt x).
  change (num_eqb ?a ?b) with (Reqb a b).
  destruct (magnitude_cases (accumulate (num := R) text)) as [[Hm _]|[Hm Hall]].
  - rewrite (fallback_positive text Hm).
    replace (Reqb _ _) with false; [reflexivity|].
    symmetry. apply Reqb_false. change (@num_zero R R_Number) with 0%R. lra.
  - rewrite (fallback_zero text Hm), Hm.
    replace (Reqb 0 num_zero) with true by (symmetry; apply Reqb_true; reflexivity).
    apply map_zero_of_zeros. exact Hall.
Qed.

(** On binary64 the norm of the fallback vector is 1 up to rounding. *)
Example fallback_norm_binary64 :
  let norm := num_sqrt (sum_of_squares
                          (generateFallbackEmbedding (num := PrimFloat.float)
                             "Pastry chef")) in
  let thousand := num_of_nat 1000 in
  let tolerance :=
    num_div (num_of_nat 1)
      (num_mul thousand (num_mul thousand (num_mul thousand
         (num_mul thousand thousand)))) in
  num_ltb (num_sub (num_of_nat 1) tolerance) norm
  && num_ltb norm (num_add (num_of_nat 1) tolerance)
  = true.
Proof. vm_compute. reflexivity. Qed.

(** On binary64 the two agree on lower-case texts, bit for bit. *)
Example fallback_reference_binary64 :
  generateFallbackEmbedding (num := PrimFloat.float) "senior backend engineer"
  = Reference.fallback "senior backend engineer".
Proof. vm_compute. reflexivity. Qed.

(** ** Cosine similarity *)

Section CosineFacts.
Context {num : Type} `{Number num}.

(** The single loop of the source computes the three sums side by side. *)
Lemma cosine_loop_sums (l1 l2 p1 p2 : list num) (d a b : num) :
  length l1 = length l2 -> length p1 = length p2 ->
  cosine_loop (length l1) (length p1) (p1 ++ l1) (p2 ++ l2) (d, a, b)
  = (fold_left (fun sum p => num_add sum (num_mul (fst p) (snd p))) (combine l1 l2) d,
     fold_left (fun sum val => num_add sum (num_mul val val)) l1 a,
     fold_left (fun sum val => num_add sum (num_mul val val)) l2 b).
Proof.
  revert l2 p1 p2 d a b.
  induction l1 as [|x l1 IH]; intros [|y l2] p1 p2 d a b Hl Hp;
    try discriminate Hl; [reflexivity|].
  injection Hl as Hl.
  cbn [length cosine_loop combine fold_left fst snd].
  rewrite nth_middle.
  replace (nth (length p1) (p2 ++ y :: l2) num_zero) with y
    by (rewrite Hp; symmetry; apply nth_middle).
  specialize (IH l2 (p1 ++ [x]) (p2 ++ [y])).
  rewrite <- !app_assoc in IH. cbn [app] in IH.
  replace (S (length p1)) with (length (p1 ++ [x]))
    by (rewrite length_app; simpl; lia).
  apply IH; [exact Hl|]. rewrite !length_app, Hp. reflexivity.
Qed.

Lemma cosine_unfold (v1 v2 : list num) :
  length v1 = length v2 ->
  calculateCosineSimilarity v1 v2
  = if num_eqb (euclidean_magnitude v1) num_zero
       || num_eqb (euclidean_magnitude v2) num_zero
    then num_zero
    else num_div (dot_product v1 v2)
                 (num_mul (euclidean_magnitude v1) (euclidean_magnitude v2)).
Proof.
  intros Hl. unfold calculateCosineSimilarity.
  rewrite Hl, Nat.eqb_refl. cbn [negb]. rewrite <- Hl.
  rewrite (cosine_loop_sums v1 v2 [] [] _ _ _ Hl eq_refl). reflexivity.
Qed.

Lemma cosine_length_mismatch (v1 v2 : list num) :
  length v1 <> length v2 -> calculateCosineSimilarity v1 v2 = num_zero.
Proof.
  intros Hne. unfold calculateCosineSimilarity.
  apply Nat.eqb_neq in Hne. rewrite Hne. reflexivity.
Qed.
End CosineFacts.

(** C4. [calculateCosineSimilarity] returns exactly 0 when the two vectors
    differ in length, exactly 0 when the magnitude of either is 0, and
    otherwise the dot product divided by the product of the two magnitudes. *)
Theorem cosine_similarity_contract {num : Type} `{Number num} (v1 v2 : list num) :
  (length v1 <> length v2 -> calculateCosineSimilarity v1 v2 = num_zero)
  /\ (num_eqb (euclidean_magnitude v1) num_zero = true
      \/ num_eqb (euclidean_magnitude v2) num_zero = true ->
      calculateCosineSimilarity v1 v2 = num_zero)
  /\ (length v1 = length v2 ->
      num_eqb (euclidean_magnitude v1) num_zero = false ->
      num_eqb (euclidean_magnitude v2) num_zero = false ->
      calculateCosineSimilarity v1 v2
      = num_div (dot_product v1 v2)
                (num_mul (euclidean_magnitude v1) (euclidean_magnitude v2))).
Proof.
  split; [apply cosine_length_mismatch|split].
  - intros Hzero. destruct (Nat.eq_dec (length v1) (length v2)) as [Hl|Hl].
    + rewrite (cosine_unfold v1 v2 Hl).
      destruct Hzero as [-> | ->]; [reflexivity|].
      rewrite orb_true_r. reflexivity.
    + apply cosine_length_mismatch. exact Hl.
  - intros Hl H1 H2. rewrite (cosine_unfold v1 v2 Hl), H1, H2. reflexivity.
Qed.

Lemma cosine_similarity_contract_witness :
  calculateCosineSimilarity (num := PrimFloat.float)
    [num_of_nat 1; num_of_nat 2] [num_of_nat 3] = num_zero
  /\ calculateCosineSimilarity (num := PrimFloat.float)
       [num_zero; num_zero] [num_of_nat 3; num_of_nat 4] = num_zero
  /\ calculateCosineSimilarity (num := PrimFloat.float)
       [num_of_nat 3; num_of_nat 4] [num_of_nat 4; num_of_nat 3]
     = num_div (num_of_nat 24) (num_of_nat 25).
Proof.
  split; [|split].
  - apply (proj1 (cosine_similarity_contract (num := PrimFloat.float) _ _)).
    intros Hlen. discriminate Hlen.
  - apply (proj1 (proj2 (cosine_similarity_contract (num := PrimFloat.float) _ _))).
    left. reflexivity.
  - etransitivity.
    + apply (proj2 (proj2 (cosine_similarity_contract (num := PrimFloat.float) _ _)));
        reflexivity.
    + vm_compute. reflexivity.
Defined.

(** ** The range of the similarity in exact arithmetic *)

Section RangeFacts.
#[local] Open Scope R_scope.

Lemma dot_product_R (v1 v2 : list R) :
  dot_product (num := R) v1 v2 = dot_from 0 (combine v1 v2).
Proof. reflexivity. Qed.

Lemma euclidean_magnitude_R (v : list R) :
  euclidean_magnitude (num := R) v = R_sqrt.sqrt (squares_from 0 v).
Proof. reflexivity. Qed.

(** One turn of the loop keeps the Cauchy-Schwarz inequality. *)
Lemma cauchy_schwarz_step (d a b x y : R) :
  d * d <= a * b -> 0 <= a -> 0 <= b ->
  (d + x * y) * (d + x * y) <= (a + x * x) * (b + y * y).
Proof.
  intros Hd Ha Hb.
  assert (0 <= x * x) as Hxx by (pose proof (Rle_0_sqr x) as Hs; exact Hs).
  assert (0 <= y * y) as Hyy by (pose proof (Rle_0_sqr y) as Hs; exact Hs).
  assert (0 <= a * (y * y)) as Hay by (apply Rmult_le_pos; assumption).
  assert (0 <= b * (x * x)) as Hbx by (apply Rmult_le_pos; assumption).
  assert (2 * (d * (x * y)) <= a * (y * y) + b * (x * x)) as Hmid.
  { set (t := a * (y * y) + b * (x * x)).
    set (u := 2 * (d * (x * y))).
    assert (0 <= t) as Ht by (unfold t; lra).
    assert (u * u <= t * t) as Hsq.
    { unfold u, t.
      pose proof (Rle_0_sqr (a * (y * y) - b * (x * x))) as Hdiff.
      pose proof (Rle_0_sqr (x * y)) as Hxy. unfold Rsqr in Hdiff, Hxy.
      assert (d * d * ((x * y) * (x * y)) <= a * b * ((x * y) * (x * y)))
        as Hscaled by (apply Rmult_le_compat_r; assumption).
      replace (2 * (d * (x * y)) * (2 * (d * (x * y))))
        with (4 * (d * d * ((x * y) * (x * y)))) by ring.
      replace ((a * (y * y) + b * (x * x)) * (a * (y * y) + b * (x * x)))
        with ((a * (y * y) - b * (x * x)) * (a * (y * y) - b * (x * x))
              + 4 * (a * b * ((x * y) * (x * y)))) by ring.
      lra. }
    destruct (Rle_dec u t) as [Hle|Hgt]; [exact Hle|].
    exfalso. assert (t < u) as Htu by lra.
    assert (t * t < u * u) by nra. lra. }
  nra.
Qed.

Lemma cauchy_schwarz_from (l1 l2 : list R) (d a b : R) :
  length l1 = length l2 ->
  d * d <= a * b -> 0 <= a -> 0 <= b ->
  dot_from d (combine l1 l2) * dot_from d (combine l1 l2)
  <= squares_from a l1 * squares_from b l2.
Proof.
  revert l2 d a b.
  induction l1 as [|x l1 IH]; intros [|y l2] d a b Hl Hd Ha Hb;
    try discriminate Hl; [exact Hd|].
  injection Hl as Hl. unfold dot_from, squares_from. simpl.
  apply IH; [exact Hl| |nra|nra].
  apply cauchy_schwarz_step; assumption.
Qed.

Lemma cauchy_schwarz (v1 v2 : list R) :
  length v1 = length v2 ->
  dot_from 0 (combine v1 v2) * dot_from 0 (combine v1 v2)
  <= squares_from 0 v1 * squares_from 0 v2.
Proof. intros Hl. apply cauchy_schwarz_from; [exact Hl|lra|lra|lra]. Qed.

Lemma dot_from_nonneg (l : list (R * R)) (d : R) :
  0 <= d -> Forall (fun p => 0 <= fst p /\ 0 <= snd p) l -> 0 <= dot_from d l.
Proof.
  intros Hd Hall. revert d Hd.
  induction Hall as [|[x y] l [Hx Hy] _ IH]; intros d Hd; [exact Hd|].
  unfold dot_from. simpl. apply IH. simpl in Hx, Hy. nra.
Qed.

Lemma Forall_combine_nonneg (v1 v2 : list R) :
  Forall (fun x => 0 <= x) v1 -> Forall (fun x => 0 <= x) v2 ->
  Forall (fun p => 0 <= fst p /\ 0 <= snd p) (combine v1 v2).
Proof.
  intros H1. revert v2. induction H1 as [|x v1 Hx _ IH]; intros v2 H2; simpl.
  - constructor.
  - destruct H2 as [|y v2 Hy H2]; constructor; [split; assumption|].
    apply IH. exact H2.
Qed.

(** The quotient of the source lies between -1 and 1. *)
Lemma quotient_range (d a b : R) :
  d * d <= a * b -> 0 <= a -> 0 <= b ->
  R_sqrt.sqrt a <> 0 -> R_sqrt.sqrt b <> 0 ->
  -1 <= d / (R_sqrt.sqrt a * R_sqrt.sqrt b) <= 1.
Proof.
  intros Hd Ha Hb Hsa Hsb.
  pose proof (sqrt_pos a) as Hpa. pose proof (sqrt_pos b) as Hpb.
  set (m := R_sqrt.sqrt a * R_sqrt.sqrt b).
  assert (0 < m) as Hm by (unfold m; apply Rmult_lt_0_compat; lra).
  assert (m * m = a * b) as Hmm.
  { unfold m.
    replace (R_sqrt.sqrt a * R_sqrt.sqrt b * (R_sqrt.sqrt a * R_sqrt.sqrt b))
      with ((R_sqrt.sqrt a * R_sqrt.sqrt a) * (R_sqrt.sqrt b * R_sqrt.sqrt b))
      by ring.
    rewrite !sqrt_sqrt by assumption. reflexivity. }
  assert (- m <= d <= m) as [Hlo Hhi].
  { split.
    - destruct (Rle_dec (- m) d) as [H|H]; [exact H|]. exfalso.
      assert (m < - d) by lra. assert (m * m < (- d) * (- d)) by nra. nra.
    - destruct (Rle_dec d m) as [H|H]; [exact H|]. exfalso.
      assert (m < d) by lra. assert (m * m < d * d) by nra. nra. }
  split.
  - apply Rle_trans with (- m / m).
    + right. field. lra.
    + unfold Rdiv. apply Rmult_le_compat_r; [|exact Hlo].
      left. apply Rinv_0_lt_compat. exact Hm.
  - apply Rle_trans with (m / m).
    + unfold Rdiv. apply Rmult_le_compat_r; [|exact Hhi].
      left. apply Rinv_0_lt_compat. exact Hm.
    + right. field. lra.
Qed.

(** In exact arithmetic the cosine similarity lies in [-1, 1]. *)
Lemma cosine_range (v1 v2 : list R) :
  -1 <= calculateCosineSimilarity (num := R) v1 v2 <= 1.
Proof.
  destruct (Nat.eq_dec (length v1) (length v2)) as [Hl|Hl].
  - rewrite (cosine_unfold v1 v2 Hl).
    rewrite !euclidean_magnitude_R, dot_product_R.
    change (num_eqb ?a ?b) with (Reqb a b).
    change (@num_zero R R_Number) with 0.
    destruct (Reqb (R_sqrt.sqrt (squares_from 0 v1)) 0) eqn:H1;
      [cbn [orb]; lra|].
    destruct (Reqb (R_sqrt.sqrt (squares_from 0 v2)) 0) eqn:H2;
      [cbn [orb]; lra|].
    cbn [orb]. apply Reqb_false in H1, H2.
    apply quotient_range; try assumption; try apply squares_nonneg.
    apply cauchy_schwarz. exact Hl.
  - rewrite (cosine_length_mismatch v1 v2 Hl).
    change (@num_zero R R_Number) with 0. lra.
Qed.

(** It is not negative when no component of either vector is. *)
Lemma cosine_nonneg (v1 v2 : list R) :
  Forall (fun x => 0 <= x) v1 -> Forall (fun x => 0 <= x) v2 ->
  0 <= calculateCosineSimilarity (num := R) v1 v2.
Proof.
  intros Hv1 Hv2.
  destruct (Nat.eq_dec (length v1) (length v2)) as [Hl|Hl].
  - rewrite (cosine_unfold v1 v2 Hl).
    rewrite !euclidean_magnitude_R, dot_product_R.
    change (num_eqb ?a ?b) with (Reqb a b).
    change (@num_zero R R_Number) with 0.
    destruct (Reqb (R_sqrt.sqrt (squares_from 0 v1)) 0) eqn:H1;
      [cbn [orb]; lra|].
    destruct (Reqb (R_sqrt.sqrt (squares_from 0 v2)) 0) eqn:H2;
      [cbn [orb]; lra|].
    cbn [orb]. apply Reqb_false in H1, H2.
    pose proof (sqrt_pos (squares_from 0 v1)) as Hp1.
    pose proof (sqrt_pos (squares_from 0 v2)) as Hp2.
    change (num_div ?a ?b) with (a / b). change (num_mul ?a ?b) with (a * b).
    apply Rmult_le_pos.
    + apply dot_from_nonneg; [lra|]. apply Forall_combine_nonneg; assumption.
    + left. apply Rinv_0_lt_compat. apply Rmult_lt_0_compat; lra.
  - rewrite (cosine_length_mismatch v1 v2 Hl).
    change (@num_zero R R_Number) with 0. lra.
Qed.
End RangeFacts.

(** ** The match run *)

Section MatchRunFacts.
Import MatchResumes MatchFacts.
Context {num : Type} `{Number num}.
Variable env : environment num.

Lemma generateEmbedding_run (text : string) (w : world num) :
  generateEmbedding env text w
  = ({| jobs := jobs w; resumes := resumes w; matches := matches w;
        calls := calls w ++ [EmbeddingRequested text] |},
     Returned (generated env text)).
Proof.
  unfold generateEmbedding, generated, primary_call, bind, try_catch, lift, ret,
    record_call, modify.
  cbn. destruct (ai_Session env "gte-small") as [model|error]; [|reflexivity].
  destruct (model text); reflexivity.
Qed.

(** A skipped resume leaves the store, the log and the list as they are. *)
Lemma process_resume_skipped jobId threshold je found r w :
  skipped r = true ->
  process_resume env jobId threshold je found r w = (w, Returned found).
Proof.
  unfold skipped, process_resume. intros ->. reflexivity.
Qed.

(** What a turn returns: the list, with the entry of the resume when it is
    scored at or above the threshold. *)
Lemma process_resume_returns jobId threshold je found r w :
  snd (process_resume env jobId threshold je found r w)
  = Returned (found ++ matching_entries env threshold je [r]).
Proof.
  unfold matching_entries, score, resume_vector. cbn [flat_map].
  rewrite app_nil_r.
  unfold process_resume. fold (skipped r).
  destruct (skipped r); [cbn; rewrite app_nil_r; reflexivity|].
  destruct (embedding r) as [cached|].
  - unfold bind, ret. cbn.
    destruct je as [v1|]; [|cbn; rewrite app_nil_r; reflexivity].
    unfold upsert_match, record_call, modify, bind, ret. cbn.
    destruct (num_leb threshold (calculateCosineSimilarity v1 cached));
      cbn; [reflexivity|rewrite app_nil_r; reflexivity].
  - destruct (truthy_text (resume_text r)) as [text|].
    + unfold bind at 1 2. rewrite generateEmbedding_run.
      unfold update_resume_embedding, record_call, modify, bind, ret. cbn.
      destruct je as [v1|]; [|cbn; rewrite app_nil_r; reflexivity].
      unfold upsert_match, record_call, modify, bind, ret. cbn.
      destruct (num_leb threshold (calculateCosineSimilarity v1 (generated env text)));
        cbn; [reflexivity|rewrite app_nil_r; reflexivity].
    + unfold bind, ret. cbn. destruct je; cbn; rewrite app_nil_r; reflexivity.
Qed.

Lemma matching_entries_cons threshold je r rs :
  matching_entries env threshold je (r :: rs)
  = matching_entries env threshold je [r] ++ matching_entries env threshold je rs.
Proof.
  unfold matching_entries. cbn [flat_map]. rewrite app_nil_r. reflexivity.
Qed.

Lemma process_resumes_returns jobId threshold je rs : forall found w,
  snd (process_resumes env jobId threshold je found rs w)
  = Returned (found ++ matching_entries env threshold je rs).
Proof.
  induction rs as [|r rs IH]; intros found w.
  - cbn. rewrite app_nil_r. reflexivity.
  - cbn [process_resumes]. unfold bind.
    pose proof (process_resume_returns jobId threshold je found r w) as Hr.
    destruct (process_resume env jobId threshold je found r w) as [w1 [found1|error]];
      cbn [snd] in Hr; [|discriminate Hr].
    injection Hr as ->. rewrite IH, (matching_entries_cons threshold je r rs).
    f_equal. symmetry. apply app_assoc.
Qed.

(** The store and the log after a turn. *)
Lemma process_resume_world jobId threshold je found r w w' o :
  process_resume env jobId threshold je found r w = (w', o) ->
  jobs w' = jobs w
  /\ matches w'
     = match score env je r with
       | Some s => <[(jobId, id r) := record_of env jobId threshold r s]> (matches w)
       | None => matches w
       end
  /\ exists requests,
       calls w' = calls w ++ requests
                  ++ match score env je r with
                     | Some s => [MatchUpserted (record_of env jobId threshold r s)]
                     | None => []
                     end
       /\ (forall rec, ~ In (MatchUpserted rec) requests)
       /\ (skipped r = true -> requests = []).
Proof.
  assert (forall text (rec : MatchRecord num),
             ~ In (MatchUpserted rec)
                  [EmbeddingRequested text; ResumeEmbeddingStored (id r)])
    as Hnone.
  { intros text rec [Hin|[Hin|[]]]; discriminate Hin. }
  unfold score, resume_vector, process_resume. fold (skipped r).
  destruct (skipped r).
  - cbn. intros E. injection E as <- <-.
    split; [reflexivity|]. split; [reflexivity|].
    exists []. rewrite ?app_nil_r.
    split; [reflexivity|]. split; [intros rec []|reflexivity].
  - destruct (embedding r) as [cached|];
      [|destruct (truthy_text (resume_text r)) as [text|]].
    + unfold bind, ret. cbn.
      destruct je as [v1|].
      * unfold upsert_match, record_call, modify, bind, ret. cbn.
        destruct (num_leb threshold (calculateCosineSimilarity v1 cached)) eqn:Hm;
          cbn; intros E; injection E as <- <-; unfold record_of; rewrite Hm;
          (split; [reflexivity|]); (split; [reflexivity|]);
          exists []; (split; [reflexivity|]);
          (split; [intros rec []|discriminate]).
      * cbn. intros E. injection E as <- <-.
        split; [reflexivity|]. split; [reflexivity|].
        exists []. rewrite ?app_nil_r.
        split; [reflexivity|]. split; [intros rec []|discriminate].
    + unfold bind at 1 2. rewrite generateEmbedding_run.
      unfold update_resume_embedding, record_call, modify, bind, ret. cbn.
      destruct je as [v1|].
      * unfold upsert_match, record_call, modify, bind, ret. cbn.
        destruct (num_leb threshold
                    (calculateCosineSimilarity v1 (generated env text))) eqn:Hm;
          cbn; intros E; injection E as <- <-; unfold record_of; rewrite Hm;
          (split; [reflexivity|]); (split; [reflexivity|]);
          exists [EmbeddingRequested text; ResumeEmbeddingStored (id r)];
          (split; [cbn; rewrite <- ?app_assoc; reflexivity|]);
          (split; [apply Hnone|discriminate]).
      * cbn. intros E. injection E as <- <-.
        split; [reflexivity|]. split; [reflexivity|].
        exists [EmbeddingRequested text; ResumeEmbeddingStored (id r)].
        cbn. rewrite ?app_nil_r, <- ?app_assoc.
        split; [reflexivity|]. split; [apply Hnone|discriminate].
    + unfold bind, ret. cbn.
      destruct je; cbn; intros E; injection E as <- <-;
        (split; [reflexivity|]); (split; [reflexivity|]);
        exists []; rewrite ?app_nil_r;
        (split; [reflexivity|]); (split; [intros rec []|discriminate]).
Qed.

(** The upserts of a turn: those before it, and the record of the resume
    when it is scored. *)
Lemma process_resume_upserts jobId threshold je found r w w' o rec :
  process_resume env jobId threshold je found r w = (w', o) ->
  upserted rec w'
  <-> upserted rec w
      \/ exists s, score env je r = Some s
                   /\ rec = record_of env jobId threshold r s.
Proof.
  intros E.
  destruct (process_resume_world _ _ _ _ _ _ _ _ E)
    as (_ & _ & requests & Hcalls & Hnone & _).
  unfold upserted. rewrite Hcalls, !in_app_iff.
  destruct (score env je r) as [s|]; cbn [In]; split.
  - intros [Hw|[Hreq|[Heq|[]]]].
    + left. exact Hw.
    + exfalso. exact (Hnone rec Hreq).
    + right. exists s. split; [reflexivity|]. injection Heq as <-. reflexivity.
  - intros [Hw|(s' & Hs & ->)].
    + left. exact Hw.
    + injection Hs as <-. right. right. left. reflexivity.
  - intros [Hw|[Hreq|[]]].
    + left. exact Hw.
    + exfalso. exact (Hnone rec Hreq).
  - intros [Hw|(s' & Hs & _)]; [left; exact Hw|discriminate Hs].
Qed.

Lemma process_resumes_upserts jobId threshold je rs : forall found w w' o rec,
  process_resumes env jobId threshold je found rs w = (w', o) ->
  upserted rec w'
  <-> upserted rec w
      \/ exists r s, In r rs /\ score env je r = Some s
                     /\ rec = record_of env jobId threshold r s.
Proof.
  induction rs as [|r rs IH]; intros found w w' o rec E.
  - cbn in E. injection E as <- <-. split; [intros Hw; left; exact Hw|].
    intros [Hw|(r & s & [] & _)]. exact Hw.
  - cbn [process_resumes] in E. unfold bind in E.
    pose proof (process_resume_returns jobId threshold je found r w) as Hr.
    destruct (process_resume env jobId threshold je found r w)
      as [w1 [found1|error]] eqn:E1; cbn [snd] in Hr; [|discriminate Hr].
    rewrite (IH _ _ _ _ rec E), (process_resume_upserts _ _ _ _ _ _ _ _ rec E1).
    split.
    + intros [[Hw|(s & Hs & ->)]|(r' & s & Hin & Hs & ->)].
      * left. exact Hw.
      * right. exists r, s. split; [left; reflexivity|]. split; [exact Hs|reflexivity].
      * right. exists r', s. split; [right; exact Hin|]. split; [exact Hs|reflexivity].
    + intros [Hw|(r' & s & [<-|Hin] & Hs & ->)].
      * left. left. exact Hw.
      * left. right. exists s. split; [exact Hs|reflexivity].
      * right. exists r', s. split; [exact Hin|]. split; [exact Hs|reflexivity].
Qed.

(** A turn that is skipped can be left out of the loop. *)
Lemma process_resumes_without_skipped jobId threshold je r rs2 rs1 :
  skipped r = true -> forall found w,
  process_resumes env jobId threshold je found (rs1 ++ r :: rs2) w
  = process_resumes env jobId threshold je found (rs1 ++ rs2) w.
Proof.
  intros Hskip. induction rs1 as [|r1 rs1 IH]; intros found w.
  - cbn [app process_resumes]. unfold bind at 1.
    rewrite (process_resume_skipped _ _ _ _ _ _ Hskip). reflexivity.
  - cbn [app process_resumes]. unfold bind.
    destruct (process_resume env jobId threshold je found r1 w) as [w1 [found1|error]];
      [apply IH|reflexivity].
Qed.

End MatchRunFacts.

(** ** The sort *)

Section SortFacts.
Context {num : Type} `{Number num} {A : Type}.
Variable comparefn : A -> A -> num.

Lemma sort_insert_perm (x : A) (l : list A) :
  Permutation (sort_insert comparefn x l) (x :: l).
Proof.
  induction l as [|y l IH]; cbn [sort_insert]; [reflexivity|].
  destruct (num_ltb num_zero (comparefn x y)); [|reflexivity].
  rewrite IH. apply perm_swap.
Qed.

Lemma Array_sort_perm (l : list A) : Permutation (Array_sort comparefn l) l.
Proof.
  induction l as [|x l IH]; cbn [Array_sort fold_right]; [reflexivity|].
  fold (Array_sort comparefn l). rewrite sort_insert_perm, IH. reflexivity.
Qed.

(** Stability, for a class [p] of elements: [x] only passes elements that
    are not of its class, so the elements of the class keep their order. *)
Section Stable.
Variable p : A -> bool.
Hypothesis passes_other_class :
  forall x y, num_ltb num_zero (comparefn x y) = true -> p x = true -> p y = false.

Lemma sort_insert_filter (x : A) (l : list A) :
  List.filter p (sort_insert comparefn x l) = List.filter p (x :: l).
Proof.
  induction l as [|y l IH]; cbn [sort_insert]; [reflexivity|].
  destruct (num_ltb num_zero (comparefn x y)) eqn:Hxy; [|reflexivity].
  cbn [List.filter] in *. rewrite IH.
  destruct (p x) eqn:Hx; [|reflexivity].
  rewrite (passes_other_class x y Hxy Hx). reflexivity.
Qed.

Lemma Array_sort_filter (l : list A) :
  List.filter p (Array_sort comparefn l) = List.filter p l.
Proof.
  induction l as [|x l IH]; cbn [Array_sort fold_right]; [reflexivity|].
  fold (Array_sort comparefn l). rewrite sort_insert_filter.
  cbn [List.filter]. rewrite IH. reflexivity.
Qed.
End Stable.

(** Order, for a relation [before] that the comparison decides. *)
Section Ordered.
Variable before : A -> A -> Prop.
Hypothesis before_trans : forall x y z, before x y -> before y z -> before x z.
Hypothesis positive_after :
  forall x y, num_ltb num_zero (comparefn x y) = true -> before y x.
Hypothesis other_before :
  forall x y, num_ltb num_zero (comparefn x y) = false -> before x y.

Lemma sort_insert_sorted (x : A) (l : list A) :
  StronglySorted before l -> StronglySorted before (sort_insert comparefn x l).
Proof.
  induction 1 as [|y l Hsorted IH Hall]; cbn [sort_insert].
  - constructor; constructor.
  - destruct (num_ltb num_zero (comparefn x y)) eqn:Hxy.
    + constructor; [exact IH|].
      apply List.Forall_forall. intros z Hz.
      apply (Permutation_in _ (sort_insert_perm x l)) in Hz.
      destruct Hz as [<-|Hz]; [apply positive_after; exact Hxy|].
      apply (proj1 (List.Forall_forall _ _) Hall z Hz).
    + constructor; [constructor; assumption|].
      pose proof (other_before x y Hxy) as Hb.
      constructor; [exact Hb|].
      apply List.Forall_forall. intros z Hz.
      apply (before_trans x y z Hb).
      apply (proj1 (List.Forall_forall _ _) Hall z Hz).
Qed.

Lemma Array_sort_sorted (l : list A) : StronglySorted before (Array_sort comparefn l).
Proof.
  induction l as [|x l IH]; cbn [Array_sort fold_right]; [constructor|].
  apply sort_insert_sorted. exact IH.
Qed.
End Ordered.
End SortFacts.

Section RankFacts.
Import MatchResumes.
#[local] Open Scope R_scope.

Lemma ranked_descending (l : list (match_entry R)) :
  StronglySorted descending (Array_sort by_score_descending l).
Proof.
  apply Array_sort_sorted; unfold descending, by_score_descending.
  - intros x y z Hxy Hyz. lra.
  - intros x y Hpos. apply Rltb_true in Hpos. cbn in Hpos. lra.
  - intros x y Hpos. apply Rltb_false in Hpos. cbn in Hpos. lra.
Qed.

Lemma ranked_stable (x : R) (l : list (match_entry R)) :
  with_score x (Array_sort by_score_descending l) = with_score x l.
Proof.
  unfold with_score. apply Array_sort_filter.
  intros a b Hpos Ha. unfold by_score_descending in Hpos.
  apply Rltb_true in Hpos. cbn in Hpos.
  apply Reqb_true in Ha. apply Reqb_false. lra.
Qed.

Lemma with_score_head (a : match_entry R) (l : list (match_entry R)) :
  with_score (entry_similarity_score a) (a :: l)
  = a :: with_score (entry_similarity_score a) l.
Proof.
  unfold with_score. cbn [List.filter].
  rewrite (proj2 (Reqb_true _ _) eq_refl). reflexivity.
Qed.

Lemma with_score_other (x : R) (a : match_entry R) (l : list (match_entry R)) :
  entry_similarity_score a <> x -> with_score x (a :: l) = with_score x l.
Proof.
  intros Hne. unfold with_score. cbn [List.filter].
  rewrite (proj2 (Reqb_false _ _) Hne). reflexivity.
Qed.

Lemma in_with_score (a : match_entry R) (l : list (match_entry R)) :
  In a (with_score (entry_similarity_score a) l) <-> In a l.
Proof.
  unfold with_score. rewrite filter_In. split; [intros [Hin _]; exact Hin|].
  intros Hin. split; [exact Hin|]. apply Reqb_true. reflexivity.
Qed.

(** A descending list is determined by its classes of equal score. *)
Lemma ranked_unique (l1 : list (match_entry R)) :
  StronglySorted descending l1 -> forall l2,
  StronglySorted descending l2 ->
  (forall x, with_score x l1 = with_score x l2) -> l1 = l2.
Proof.
  induction 1 as [|a l1 Hs1 IH Ha]; intros l2 H2 Hclass.
  - destruct l2 as [|b l2]; [reflexivity|].
    specialize (Hclass (entry_similarity_score b)).
    rewrite with_score_head in Hclass. discriminate Hclass.
  - destruct H2 as [|b l2 Hs2 Hb].
    + specialize (Hclass (entry_similarity_score a)).
      rewrite with_score_head in Hclass. discriminate Hclass.
    + assert (entry_similarity_score a = entry_similarity_score b) as Hab.
      { assert (In a (b :: l2)) as Hin2.
        { apply in_with_score. rewrite <- Hclass, with_score_head. left. reflexivity. }
        assert (In b (a :: l1)) as Hin1.
        { apply in_with_score. rewrite Hclass, with_score_head. left. reflexivity. }
        assert (entry_similarity_score a <= entry_similarity_score b) as Hle1.
        { destruct Hin2 as [<-|Hin2]; [lra|].
          apply (proj1 (List.Forall_forall _ _) Hb a Hin2). }
        assert (entry_similarity_score b <= entry_similarity_score a) as Hle2.
        { destruct Hin1 as [<-|Hin1]; [lra|].
          apply (proj1 (List.Forall_forall _ _) Ha b Hin1). }
        lra. }
      pose proof (Hclass (entry_similarity_score a)) as Hhead.
      rewrite with_score_head, Hab, with_score_head in Hhead.
      injection Hhead as <- Htail.
      f_equal. apply IH; [exact Hs2|]. intros x.
      destruct (Req_dec_T (entry_similarity_score a) x) as [<-|Hne].
      * exact Htail.
      * specialize (Hclass x).
        rewrite !with_score_other in Hclass by exact Hne. exact Hclass.
Qed.

(** Whatever algorithm the engine sorts with, a stable descending
    arrangement of the list is the one [Array_sort] computes. *)
Lemma stable_sort_unique (l l' : list (match_entry R)) :
  StronglySorted descending l' ->
  (forall x, with_score x l' = with_score x l) ->
  l' = Array_sort by_score_descending l.
Proof.
  intros Hsorted Hstable. apply ranked_unique; [exact Hsorted| |].
  - apply ranked_descending.
  - intros x. rewrite ranked_stable. apply Hstable.
Qed.
End RankFacts.

(** ** Claims on the embedding service and on the turns of the loop *)

Section RunClaims.
Import MatchResumes MatchFacts.

(** C8. [generateEmbedding] never raises to its caller: it returns a vector
    for every text, and when the primary model call fails, for whatever
    reason, that vector is the one of [generateFallbackEmbedding]. *)
Theorem generateEmbedding_never_raises {num : Type} `{Number num}
    (env : environment num) (text : string) (w : world num) :
  exists v,
    snd (generateEmbedding env text w) = Returned v
    /\ (forall error, primary_call env text = Raised error ->
        v = generateFallbackEmbedding text).
Proof.
  exists (generated env text). rewrite generateEmbedding_run.
  split; [reflexivity|].
  intros error Herror. unfold generated. rewrite Herror. reflexivity.
Qed.

Lemma generateEmbedding_never_raises_witness :
  primary_call Samples.env_unavailable "Pastry chef"
  = Raised (ErrorObject "Supabase is not defined")
  /\ snd (generateEmbedding Samples.env_unavailable "Pastry chef" (Samples.world_of []))
     = Returned (generateFallbackEmbedding "Pastry chef").
Proof.
  split; [reflexivity|].
  destruct (generateEmbedding_never_raises Samples.env_unavailable "Pastry chef"
              (Samples.world_of [])) as (v & Hv & Hfallback).
  rewrite Hv. f_equal. apply (Hfallback (ErrorObject "Supabase is not defined")).
  reflexivity.
Defined.

(** C5. A resume without source text whose status is not [completed] is
    skipped: its turn returns normally with the list of matches, the store
    and the log of requests unchanged (no record, no embedding), and the
    loop over the resumes runs as if the resume were not among them. *)
Theorem unparsed_resume_is_skipped {num : Type} `{Number num}
    (env : environment num) (jobId : string) (threshold : num)
    (je : option (list num)) (found : list (match_entry num))
    (r : resume num) (rs1 rs2 : list (resume num)) (w : world num) :
  is_truthy (resume_text r) = false ->
  status r <> "completed"%string ->
  process_resume env jobId threshold je found r w = (w, Returned found)
  /\ process_resumes env jobId threshold je found (rs1 ++ r :: rs2) w
     = process_resumes env jobId threshold je found (rs1 ++ rs2) w.
Proof.
  intros Htext Hstatus.
  assert (skipped r = true) as Hskip.
  { unfold skipped. rewrite Htext.
    apply String.eqb_neq in Hstatus. rewrite Hstatus. reflexivity. }
  split.
  - apply process_resume_skipped. exact Hskip.
  - apply process_resumes_without_skipped. exact Hskip.
Qed.

End RunClaims.

Lemma unparsed_resume_is_skipped_witness :
  let r := {| MatchResumes.id := "resume-3"; MatchResumes.job_ref := "job-1";
              MatchResumes.candidate_name := None; MatchResumes.resume_text := None;
              MatchResumes.file_name := "cv.pdf"; MatchResumes.embedding := None;
              MatchResumes.status := "pending" |} in
  MatchResumes.process_resume Samples.env_unavailable "job-1"
    MatchResumes.default_threshold (Some Samples.unit_vector) [] r (Samples.world_of [r])
  = (Samples.world_of [r], Returned []).
Proof.
  intros r.
  apply (unparsed_resume_is_skipped Samples.env_unavailable "job-1"
           MatchResumes.default_threshold (Some Samples.unit_vector) [] r [] []
           (Samples.world_of [r])).
  - reflexivity.
  - intros Heq. discriminate Heq.
Defined.



(** ** The run as a whole *)

Section WholeRun.
Import MatchResumes MatchFacts.
Context {num : Type} `{Number num}.
Variable env : environment num.

(** The step on the embedding of the job asks for no upsert and leaves the
    resumes as loaded. *)
Lemma job_step (jobId : string) (j : job num) (w : world num) :
  exists w1,
    (match job_embedding j, truthy_text (description_text j) with
     | None, Some text =>
         let* e := generateEmbedding env text in
         do update_job_embedding jobId e then
         ret (Some e)
     | cached, _ => ret cached
     end) w = (w1, Returned (job_vector env j))
    /\ resumes w1 = resumes w
    /\ (forall rec, upserted rec w1 <-> upserted rec w).
Proof.
  unfold job_vector.
  destruct (job_embedding j) as [cached|].
  - exists w. repeat split; auto.
  - destruct (truthy_text (description_text j)) as [text|].
    + eexists. unfold bind at 1. rewrite generateEmbedding_run.
      unfold update_job_embedding, record_call, modify, bind, ret. cbn.
      split; [reflexivity|]. split; [reflexivity|].
      intros rec. unfold upserted. cbn. rewrite !in_app_iff. cbn.
      split; [|tauto].
      intros [[Hw|[Hin|[]]]|[Hin|[]]]; [exact Hw|discriminate Hin|discriminate Hin].
    + exists w. repeat split; auto.
Qed.

(** A run that returns a summary found the job, loaded its resumes, went
    through them and sorted what the loop collected. *)
Lemma match_run_returns (req : MatchRequest num) (w w' : world num) (s : summary num) :
  match_run env req w = (w', Returned s) ->
  let jobId := jobId_of req in
  let threshold := default default_threshold (threshold_of req) in
  exists j,
    jobs w !! jobId = Some j
    /\ sum_matches s
       = Array_sort by_score_descending
           (matching_entries env threshold (job_vector env j) (loaded jobId w))
    /\ matched_resumes s = length (sum_matches s)
    /\ total_resumes s = length (loaded jobId w)
    /\ (forall rec,
          upserted rec w'
          <-> upserted rec w
              \/ exists r x, In r (loaded jobId w)
                             /\ score env (job_vector env j) r = Some x
                             /\ rec = record_of env jobId threshold r x).
Proof.
  intros E jobId threshold. unfold match_run in E. fold jobId threshold in E.
  unfold bind at 1 in E. unfold gets at 1 in E.
  destruct (jobs w !! jobId) as [j|] eqn:Hj; [|discriminate E].
  exists j. split; [reflexivity|].
  destruct (job_step jobId j w) as (w1 & Hstep & Hres & Hups).
  unfold bind at 1 in E. rewrite Hstep in E.
  unfold bind at 1 in E. unfold gets at 1 in E.
  destruct (resumes_error env) as [error|]; [discriminate E|].
  unfold bind at 1 in E.
  pose proof (process_resumes_returns env jobId threshold (job_vector env j)
                (List.filter (fun r => String.eqb (job_ref r) jobId) (resumes w1))
                [] w1) as Hfound.
  destruct (process_resumes env jobId threshold (job_vector env j) []
              (List.filter (fun r => String.eqb (job_ref r) jobId) (resumes w1)) w1)
    as [w2 [found|error]] eqn:Eloop; cbn [snd] in Hfound; [|discriminate Hfound].
  injection Hfound as ->. unfold ret in E. injection E as <- <-.
  cbn [sum_matches matched_resumes total_resumes app].
  unfold loaded. rewrite <- Hres.
  split; [reflexivity|]. split; [reflexivity|]. split; [reflexivity|].
  intros rec.
  rewrite (process_resumes_upserts env _ _ _ _ _ _ _ _ rec Eloop), (Hups rec).
  reflexivity.
Qed.

Lemma score_is_cosine (je : option (list num)) (r : resume num) (x : num) :
  score env je r = Some x ->
  exists v1 v2, je = Some v1 /\ x = calculateCosineSimilarity v1 v2.
Proof.
  unfold score. destruct (skipped r); [discriminate|].
  destruct je as [v1|]; [|discriminate].
  destruct (resume_vector env r) as [v2|]; [|discriminate].
  intros Hx. injection Hx as <-. exists v1, v2. split; reflexivity.
Qed.

Lemma in_matching_entries threshold je rs (e : match_entry num) :
  In e (matching_entries env threshold je rs)
  <-> exists r x, In r rs /\ score env je r = Some x
                 /\ num_leb threshold x = true /\ e = entry_of r x.
Proof.
  unfold matching_entries. rewrite in_flat_map. split.
  - intros (r & Hr & He). destruct (score env je r) as [x|] eqn:Hs; [|destruct He].
    destruct (num_leb threshold x) eqn:Hx; [|destruct He].
    destruct He as [<-|[]]. exists r, x.
    split; [exact Hr|]. split; [exact Hs|]. split; [exact Hx|reflexivity].
  - intros (r & x & Hr & Hs & Hx & ->). exists r. split; [exact Hr|].
    rewrite Hs, Hx. left. reflexivity.
Qed.

(** Every upsert of a run, however the run ends, stores a value computed
    by [calculateCosineSimilarity]. *)
Lemma match_run_scores (req : MatchRequest num) (w w' : world num)
    (o : outcome (summary num)) (rec : MatchRecord num) :
  match_run env req w = (w', o) ->
  upserted rec w' ->
  upserted rec w
  \/ exists v1 v2, similarity_score rec = calculateCosineSimilarity v1 v2.
Proof.
  intros E Hrec. unfold match_run in E.
  set (jobId := jobId_of req) in *.
  set (threshold := default default_threshold (threshold_of req)) in *.
  unfold bind at 1 in E. unfold gets at 1 in E.
  destruct (jobs w !! jobId) as [j|] eqn:Hj;
    [|unfold raise in E; injection E as <- <-; left; exact Hrec].
  destruct (job_step jobId j w) as (w1 & Hstep & Hres & Hups).
  unfold bind at 1 in E. rewrite Hstep in E.
  unfold bind at 1 in E. unfold gets at 1 in E.
  destruct (resumes_error env) as [error|];
    [unfold raise in E; injection E as <- <-; left; apply Hups; exact Hrec|].
  unfold bind at 1 in E.
  destruct (process_resumes env jobId threshold (job_vector env j) []
              (List.filter (fun r => String.eqb (job_ref r) jobId) (resumes w1)) w1)
    as [w2 o2] eqn:Eloop.
  assert (w' = w2) as ->.
  { destruct o2; unfold ret in E; injection E as <- <-; reflexivity. }
  apply (process_resumes_upserts env _ _ _ _ _ _ _ _ rec Eloop) in Hrec.
  destruct Hrec as [Hw1|(r & x & _ & Hx & ->)].
  - left. apply Hups. exact Hw1.
  - right. destruct (score_is_cosine _ _ _ Hx) as (v1 & v2 & _ & ->).
    exists v1, v2. reflexivity.
Qed.

Lemma handler_scores (req : request num) (w : world num) (rec : MatchRecord num) :
  upserted rec (fst (handler env req w)) ->
  upserted rec w
  \/ exists v1 v2, similarity_score rec = calculateCosineSimilarity v1 v2.
Proof.
  unfold handler. destruct (String.eqb (method req) "OPTIONS");
    [intros Hrec; left; exact Hrec|].
  unfold try_catch, bind, lift, ret.
  destruct (json req) as [parsed|error]; [|intros Hrec; left; exact Hrec].
  destruct (match_run env parsed w) as [w' o] eqn:E.
  intros Hrec. apply (match_run_scores parsed w w' o rec E).
  destruct o; exact Hrec.
Qed.
End WholeRun.

(** ** Fallback vectors have no negative component (exact arithmetic) *)

Section FallbackSign.
#[local] Open Scope R_scope.

Lemma charWeight_nonneg (c : ascii) : 0 <= charWeight (num := R) c.
Proof.
  unfold charWeight. cbn [num_div num_of_nat R_Number].
  apply Rmult_le_pos; [apply pos_INR|].
  left. apply Rinv_0_lt_compat. apply lt_0_INR. lia.
Qed.

Lemma word_loop_nonneg (word : string) : forall i j (e : list R),
  Forall (fun x => 0 <= x) e -> Forall (fun x => 0 <= x) (word_loop i j word e).
Proof.
  induction word as [|c rest IH]; intros i j e He; cbn [word_loop]; [exact He|].
  apply IH. apply Forall_alter; [exact He|].
  intros x _ Hx. pose proof (charWeight_nonneg c) as Hc.
  cbn [num_add R_Number]. lra.
Qed.

Lemma words_loop_nonneg (words : list string) : forall i (e : list R),
  Forall (fun x => 0 <= x) e -> Forall (fun x => 0 <= x) (words_loop i words e).
Proof.
  induction words as [|w ws IH]; intros i e He; cbn [words_loop]; [exact He|].
  destruct (i <? length e)%nat; [|exact He].
  apply IH. apply word_loop_nonneg. exact He.
Qed.

Lemma accumulate_nonneg (text : string) :
  Forall (fun x => 0 <= x) (accumulate (num := R) text).
Proof.
  unfold accumulate. apply words_loop_nonneg.
  apply Forall_replicate. cbn. lra.
Qed.

Lemma fallback_nonneg (text : string) :
  Forall (fun x => 0 <= x) (generateFallbackEmbedding (num := R) text).
Proof.
  pose proof (accumulate_nonneg text) as Hacc.
  destruct (magnitude_cases (accumulate (num := R) text)) as [[Hm _]|[Hm _]].
  - rewrite (fallback_positive text Hm).
    apply List.Forall_forall. intros y Hy. apply in_map_iff in Hy.
    destruct Hy as (x & <- & Hx).
    apply (proj1 (List.Forall_forall _ _) Hacc) in Hx.
    apply Rmult_le_pos; [exact Hx|]. left. apply Rinv_0_lt_compat. exact Hm.
  - rewrite (fallback_zero text Hm).
    apply List.Forall_forall. intros y Hy. apply in_map_iff in Hy.
    destruct Hy as (x & <- & _). lra.
Qed.
End FallbackSign.

(** ** Claims on the scores and on the ranked list *)

(** C1. The schema documents [similarity_score] as a value from 0 to 1, and
    the run breaks it: for a job and a resume whose cached vectors point in
    opposite directions [calculateCosineSimilarity] gives -1 on binary64,
    nothing clamps it, and the run stores -1 as the score of the pair. *)
Lemma similarity_score_below_zero :
  exists rec,
    MatchResumes.matches
      (fst (MatchResumes.handler Samples.env_unavailable (Samples.post "job-1")
              (Samples.world_of [Samples.resume_opposed])))
      !! ("job-1"%string, "resume-2"%string) = Some rec
    /\ MatchResumes.similarity_score rec = num_sub num_zero (num_of_nat 1)
    /\ num_leb num_zero (MatchResumes.similarity_score rec) = false.
Proof.
  eexists. split; [vm_compute; reflexivity|]. split; reflexivity.
Qed.

(** Rounding alone takes the score of two identical fallback vectors above 1
    on binary64 (scenario A of the specification). *)
Example identical_texts_binary64 :
  let v := generateFallbackEmbedding (num := PrimFloat.float)
             "Senior backend engineer, Go and distributed systems" in
  num_ltb (num_of_nat 1) (calculateCosineSimilarity v v) = true.
Proof. vm_compute. reflexivity. Qed.

(** The run stores that score: for a job and a resume with the same text and
    no cached vector, the fallback path ends with a score above 1 in the
    store. *)
Example identical_texts_stored_binary64 :
  match ScenarioA.stored_score
          (fst (MatchResumes.handler Samples.env_unavailable (Samples.post "job-1")
                  ScenarioA.world_a)) with
  | Some score => num_ltb (num_of_nat 1) score
  | None => false
  end = true.
Proof. vm_compute. reflexivity. Qed.

(** The default threshold is the double of the literal [0.6]. *)
Example default_threshold_binary64 :
  MatchResumes.default_threshold (num := PrimFloat.float)
  = (0x1.3333333333333p-1)%float.
Proof. reflexivity. Qed.

(** On binary64: of three resumes at cosine 0.6, 0.8 and 0.6, loaded in this
    order and all at or above the default threshold, the one at 0.8 comes
    first and the two at 0.6 keep their load order. *)
Example ranking_binary64 :
  map fst (Samples.matched
             (snd (MatchResumes.handler Samples.env_unavailable (Samples.post "job-1")
                     (Samples.world_of Samples.three_resumes))))
  = ["resume-B"; "resume-A"; "resume-C"]%string.
Proof. vm_compute. reflexivity. Qed.

Section ScoreClaims.
Import MatchResumes MatchFacts.
#[local] Open Scope R_scope.

(** What does hold of the scores, in exact arithmetic only: every
    similarity that a match run stores lies in [-1, 1], and in [0, 1] when
    neither vector has a negative component, as for two fallback
    embeddings.  On binary64 rounding can pass these bounds, as
    [identical_texts_binary64] shows. *)
Theorem similarity_score_range :
  (forall (env : environment R) (req : request R) (w : world R) (rec : MatchRecord R),
      upserted rec (fst (handler env req w)) ->
      upserted rec w \/ -1 <= similarity_score rec <= 1)
  /\ (forall v1 v2 : list R,
        Forall (fun x => 0 <= x) v1 -> Forall (fun x => 0 <= x) v2 ->
        0 <= calculateCosineSimilarity v1 v2 <= 1)
  /\ (forall t1 t2 : string,
        0 <= calculateCosineSimilarity (num := R) (generateFallbackEmbedding t1)
               (generateFallbackEmbedding t2) <= 1).
Proof.
  split; [|split].
  - intros env req w rec Hrec.
    destruct (handler_scores env req w rec Hrec) as [Hw|(v1 & v2 & ->)].
    + left. exact Hw.
    + right. apply cosine_range.
  - intros v1 v2 H1 H2. split; [apply cosine_nonneg; assumption|apply cosine_range].
  - intros t1 t2. split; [|apply cosine_range].
    apply cosine_nonneg; apply fallback_nonneg.
Qed.

End ScoreClaims.

Section ScoreWitnesses.
Import MatchResumes MatchFacts.
#[local] Open Scope R_scope.

Lemma sample_run :
  match_run RealSamples.env_unavailable RealSamples.request1 RealSamples.world1
  = (RealSamples.world1_after, Returned RealSamples.summary1).
Proof.
  assert (Rleb 0 RealSamples.score1 = true) as Hle.
  { apply Rleb_true. apply cosine_nonneg; repeat constructor; lra. }
  unfold match_run, RealSamples.request1. cbn [jobId_of threshold_of default].
  unfold bind at 1. unfold gets at 1.
  change (jobs RealSamples.world1 !! "job-1"%string) with (Some RealSamples.job1).
  cbn -[calculateCosineSimilarity Rleb insert singletonM].
  unfold bind, ret, upsert_match, record_call, modify.
  cbn -[calculateCosineSimilarity Rleb insert singletonM].
  change (calculateCosineSimilarity [1; 0] [1; 0]) with RealSamples.score1.
  rewrite Hle. reflexivity.
Qed.


Lemma similarity_score_range_witness :
  upserted RealSamples.record1
    (fst (handler RealSamples.env_unavailable
            {| method := "POST"; json := Returned RealSamples.request1 |}
            RealSamples.world1))
  /\ -1 <= similarity_score RealSamples.record1 <= 1.
Proof.
  assert (upserted RealSamples.record1
            (fst (handler RealSamples.env_unavailable
                    {| method := "POST"; json := Returned RealSamples.request1 |}
                    RealSamples.world1))) as Hup.
  { unfold handler. cbn [method json].
    change (String.eqb "POST" "OPTIONS") with false.
    unfold try_catch, bind, lift, ret. cbv beta iota.
    rewrite sample_run. left. reflexivity. }
  split; [exact Hup|].
  destruct (proj1 similarity_score_range _ _ _ _ Hup) as [[]|Hrange].
  exact Hrange.
Defined.
End ScoreWitnesses.

(** ** Text extraction *)

Section ParseClaims.
Import ParseDocument.

Lemma extract_unrecognized (env : environment) (fileType buffer : string) :
  recognized fileType = false ->
  extract env fileType buffer
  = Raised (ErrorObject ("Unsupported file type: " ++ fileType)%string).
Proof.
  unfold recognized, extract. cbn [existsb]. intros Hnone.
  repeat (apply orb_false_iff in Hnone as [? Hnone]).
  repeat match goal with
         | Heq : String.eqb fileType _ = false |- _ => rewrite Heq; clear Heq
         end.
  reflexivity.
Qed.

(** A request for an unrecognized type ends in the failure response, with
    the store as it was, whatever the download does. *)
Lemma parse_run_unrecognized (env : environment) (parsed : ParseRequest) (w : world) :
  recognized (fileType parsed) = false ->
  exists error,
    parse_run env parsed w = (w, Raised error)
    /\ (forall buffer, fetch env (fileUrl parsed) = Returned buffer ->
        error = ErrorObject ("Unsupported file type: " ++ fileType parsed)%string).
Proof.
  intros Hnone. unfold parse_run, bind, lift.
  destruct (fetch env (fileUrl parsed)) as [buffer|error].
  - rewrite (extract_unrecognized env _ buffer Hnone).
    eexists. split; [reflexivity|]. intros buffer' _. reflexivity.
  - exists error. split; [reflexivity|]. intros buffer Hfetch. discriminate Hfetch.
Qed.

(** C9, amended. A request whose declared file type is none of the
    recognized ones is answered with status 500 and the body
    [{success: false, error}], and no field of any job or resume is
    written; the error is the unsupported-file-type message whenever the
    download of the file, which comes before the test of the type, has
    succeeded. *)
Theorem unsupported_type_rejected (env : environment) (req : request)
    (parsed : ParseRequest) (w : world) :
  method req <> "OPTIONS"%string ->
  json req = Returned parsed ->
  recognized (fileType parsed) = false ->
  (exists error,
      handler env req w
      = (w, Returned {| http_status := 500; payload := Some (Failure error) |}))
  /\ (forall buffer,
        fetch env (fileUrl parsed) = Returned buffer ->
        handler env req w
        = (w, Returned {| http_status := 500;
                          payload := Some (Failure ("Unsupported file type: "
                                                    ++ fileType parsed)%string) |})).
Proof.
  intros Hmethod Hjson Hnone.
  destruct (parse_run_unrecognized env parsed w Hnone) as (error & Hrun & Hmsg).
  assert (handler env req w
          = (w, Returned {| http_status := 500;
                            payload := Some (Failure (error_message error)) |}))
    as Hresp.
  { unfold handler. apply String.eqb_neq in Hmethod. rewrite Hmethod.
    unfold try_catch, bind, lift, ret. rewrite Hjson, Hrun. reflexivity. }
  split.
  - exists (error_message error). exact Hresp.
  - intros buffer Hfetch. rewrite Hresp, (Hmsg buffer Hfetch). reflexivity.
Qed.
End ParseClaims.

Lemma unsupported_type_rejected_witness :
  ParseDocument.handler ParseSamples.env_online (ParseSamples.post ParseSamples.png)
    ParseSamples.world0
  = (ParseSamples.world0,
     Returned {| ParseDocument.http_status := 500;
                 ParseDocument.payload :=
                   Some (ParseDocument.Failure "Unsupported file type: image/png") |}).
Proof.
  apply (proj2 (unsupported_type_rejected ParseSamples.env_online
                  (ParseSamples.post ParseSamples.png) ParseSamples.png
                  ParseSamples.world0
                  ltac:(intros Heq; discriminate Heq) eq_refl eq_refl)
               "PNG"%string).
  reflexivity.
Defined.

(** C9 as stated fails: the file is downloaded before its type is examined,
    and when the download throws, the caller gets the error of the download,
    not the unsupported-file-type error. *)
Lemma unsupported_type_behind_failed_fetch :
  ParseDocument.recognized (ParseDocument.fileType ParseSamples.png) = false
  /\ ParseDocument.handler ParseSamples.env_offline (ParseSamples.post ParseSamples.png)
       ParseSamples.world0
     = (ParseSamples.world0,
        Returned {| ParseDocument.http_status := 500;
                    ParseDocument.payload := Some (ParseDocument.Failure "Invalid URL") |})
  /\ "Invalid URL"%string <> "Unsupported file type: image/png"%string.
Proof.
  split; [reflexivity|]. split; [reflexivity|].
  intros Heq. discriminate Heq.
Qed.

(** A recognized type is extracted, cleaned and written back. *)
Example text_file_is_stored :
  ParseDocument.handler ParseSamples.env_online
    (ParseSamples.post
       {| ParseDocument.fileUrl := "https://files.example/cv.txt";
          ParseDocument.fileType := "text/plain";
          ParseDocument.documentId := "resume-1";
          ParseDocument.documentType := "resume" |})
    ParseSamples.world0
  = ({| ParseDocument.jobs := ∅;
        ParseDocument.resumes :=
          {[ "resume-1"%string :=
               {| ParseDocument.text_column := Some "PNG"%string;
                  ParseDocument.status := "completed";
                  ParseDocument.updated_at := "2025-12-22T09:52:59.000Z" |} ]} |},
     Returned {| ParseDocument.http_status := 200;
                 ParseDocument.payload := Some (ParseDocument.Success "PNG" 3) |}).
Proof. vm_compute. reflexivity. Qed.

(** * Further properties *)

(** ** Cosine similarity: symmetry and self-similarity *)

(** Multiplication on binary64 commutes. *)
Lemma float_mul_comm (a b : PrimFloat.float) : PrimFloat.mul a b = PrimFloat.mul b a.
Proof.
  rewrite <- (SF2Prim_Prim2SF (PrimFloat.mul a b)), <- (SF2Prim_Prim2SF (PrimFloat.mul b a)).
  rewrite !FloatAxioms.mul_spec. f_equal. unfold SF64mul, SFmul.
  destruct (Prim2SF a) as [sa|sa| |sa ma ea], (Prim2SF b) as [sb|sb| |sb mb eb];
    try reflexivity; rewrite ?(xorb_comm sa sb); try reflexivity.
  rewrite (Pos.mul_comm ma mb), (Z.add_comm ea eb). reflexivity.
Qed.

Section Symmetry.
Context {num : Type} `{Number num}.
Hypothesis mul_comm : forall a b : num, num_mul a b = num_mul b a.

Lemma dot_fold_comm (l1 l2 : list num) (d : num) :
  fold_left (fun sum p => num_add sum (num_mul (fst p) (snd p))) (combine l1 l2) d
  = fold_left (fun sum p => num_add sum (num_mul (fst p) (snd p))) (combine l2 l1) d.
Proof.
  revert l2 d. induction l1 as [|x l1 IH]; intros [|y l2] d; try reflexivity.
  cbn [combine fold_left fst snd]. rewrite (mul_comm x y). apply IH.
Qed.

(** X1. [calculateCosineSimilarity] is symmetric in its two vectors, in every
    arithmetic whose multiplication commutes, binary64 included; vectors of
    different lengths and zero vectors are covered. *)
Theorem cosine_symmetric (v1 v2 : list num) :
  calculateCosineSimilarity v1 v2 = calculateCosineSimilarity v2 v1.
Proof.
  destruct (Nat.eq_dec (length v1) (length v2)) as [Hl|Hl].
  - rewrite (cosine_unfold v1 v2 Hl), (cosine_unfold v2 v1 (eq_sym Hl)).
    rewrite (orb_comm (num_eqb (euclidean_magnitude v1) num_zero)).
    unfold dot_product. rewrite (dot_fold_comm v1 v2).
    rewrite (mul_comm (euclidean_magnitude v1)). reflexivity.
  - rewrite (cosine_length_mismatch v1 v2 Hl).
    rewrite (cosine_length_mismatch v2 v1); [reflexivity|].
    intros Heq. apply Hl. symmetry. exact Heq.
Qed.
End Symmetry.

Lemma cosine_symmetric_witness :
  calculateCosineSimilarity (num := PrimFloat.float)
    (generateFallbackEmbedding "Pastry chef") (generateFallbackEmbedding "Nuclear physicist")
  = calculateCosineSimilarity
      (generateFallbackEmbedding "Nuclear physicist") (generateFallbackEmbedding "Pastry chef").
Proof.
  apply (@cosine_symmetric PrimFloat.float float_Number float_mul_comm).
Defined.

Section SelfSimilarity.
#[local] Open Scope R_scope.

Lemma dot_from_self (v : list R) (d : R) :
  dot_from d (combine v v) = squares_from d v.
Proof.
  revert d. induction v as [|x v IH]; intros d; [reflexivity|].
  unfold dot_from, squares_from in *. cbn [combine fold_left fst snd]. apply IH.
Qed.

(** In exact arithmetic a vector with a component other than 0 has
    similarity exactly 1 with itself; binary64 can round the quotient above
    1, as [identical_texts_binary64] shows. *)
Theorem cosine_self (v : list R) :
  ~ Forall (fun x => x = 0) v -> calculateCosineSimilarity v v = 1.
Proof.
  intros Hv. rewrite (cosine_unfold v v eq_refl).
  rewrite euclidean_magnitude_R, dot_product_R, dot_from_self.
  destruct (magnitude_cases v) as [[Hm _]|[_ Hall]]; [|contradiction].
  change (num_eqb ?a ?b) with (Reqb a b).
  change (@num_zero R R_Number) with 0.
  replace (Reqb (R_sqrt.sqrt (squares_from 0 v)) 0) with false
    by (symmetry; apply Reqb_false; lra).
  cbn [orb]. change (num_div ?a ?b) with (a / b). change (num_mul ?a ?b) with (a * b).
  rewrite sqrt_sqrt by apply squares_nonneg.
  assert (squares_from 0 v <> 0) as Hne.
  { intros H0. rewrite H0, sqrt_0 in Hm. lra. }
  field. exact Hne.
Qed.

Lemma cosine_self_witness :
  ~ Forall (fun x => x = 0) [3; 4] /\ calculateCosineSimilarity [3; 4] [3; 4] = 1.
Proof.
  assert (~ Forall (fun x : R => x = 0) [3; 4]) as Hv.
  { intros Hall. inversion Hall as [|x l Hx _]. lra. }
  split; [exact Hv|]. apply (cosine_self [3; 4] Hv).
Defined.
End SelfSimilarity.

(** ** The fallback embedding: bounds and edge cases *)

Lemma toLowerCase_whitespace (c : ascii) :
  isWhitespace c = true -> toLowerCase_unit c = c.
Proof.
  destruct c as [[] [] [] [] [] [] [] []]; intros Hc; try reflexivity; discriminate Hc.
Qed.

Lemma toLowerCase_blank (s : string) : blank s = true -> toLowerCase s = s.
Proof.
  induction s as [|c s IH]; cbn [blank toLowerCase]; [reflexivity|].
  intros Hb. apply andb_true_iff in Hb as [Hc Hs].
  rewrite (toLowerCase_whitespace c Hc), (IH Hs). reflexivity.
Qed.

Lemma split_go_blank (s : string) (in_sep : bool) :
  blank s = true -> Forall (fun w => w = EmptyString) (split_go in_sep s).
Proof.
  revert in_sep. induction s as [|c s IH]; intros in_sep; cbn [blank split_go].
  - intros _. repeat constructor.
  - intros Hb. apply andb_true_iff in Hb as [Hc Hs]. rewrite Hc.
    destruct in_sep; [apply IH; exact Hs|].
    constructor; [reflexivity|apply IH; exact Hs].
Qed.

Section FallbackEdges.
Context {num : Type} `{Number num}.

Lemma words_loop_empty_words (words : list string) : forall i (e : list num),
  Forall (fun w => w = EmptyString) words -> words_loop i words e = e.
Proof.
  induction words as [|w ws IH]; intros i e Hall; cbn [words_loop]; [reflexivity|].
  inversion Hall as [|? ? Hw Hws]; subst.
  destruct (i <? length e)%nat; [|reflexivity].
  cbn [word_loop]. apply IH. exact Hws.
Qed.

Lemma accumulate_blank (text : string) :
  blank text = true -> accumulate text = replicate 384 num_zero.
Proof.
  intros Hb. unfold accumulate. rewrite (toLowerCase_blank text Hb).
  apply words_loop_empty_words. apply split_go_blank. exact Hb.
Qed.

(** X3. Only the first 384 words of the text in lower case reach the
    vector: two texts that agree on them get the same fallback embedding,
    whatever follows. *)
Theorem fallback_reads_384_words (s t : string) :
  take 384 (split_whitespace (toLowerCase s))
  = take 384 (split_whitespace (toLowerCase t)) ->
  generateFallbackEmbedding s = generateFallbackEmbedding t.
Proof.
  intros Hwords.
  assert (accumulate s = accumulate t) as Hacc.
  { unfold accumulate.
    rewrite !words_loop_apply_all by apply length_replicate.
    change (384 - 0) with 384. rewrite Hwords. reflexivity. }
  unfold generateFallbackEmbedding. rewrite Hacc. reflexivity.
Qed.
End FallbackEdges.

Lemma fallback_reads_384_words_witness :
  generateFallbackEmbedding (num := PrimFloat.float)
    (repeat_text 384 "go " ++ "rust")%string
  = generateFallbackEmbedding (repeat_text 384 "go " ++ "java and sql")%string.
Proof.
  apply (fallback_reads_384_words (num := PrimFloat.float)).
  vm_compute. reflexivity.
Defined.

(** X2. A text of whitespace only, the empty text included, gets the zero
    vector, on binary64 as in exact arithmetic. *)
Theorem fallback_blank_text (text : string) :
  blank text = true ->
  generateFallbackEmbedding (num := PrimFloat.float) text = replicate 384 num_zero
  /\ generateFallbackEmbedding (num := R) text = replicate 384 0%R.
Proof.
  intros Hb. split.
  - unfold generateFallbackEmbedding. rewrite (accumulate_blank text Hb).
    vm_compute. reflexivity.
  - assert (Forall (fun x => x = 0%R) (accumulate (num := R) text)) as Hall.
    { rewrite (accumulate_blank text Hb). apply Forall_replicate. reflexivity. }
    destruct (magnitude_cases (accumulate (num := R) text)) as [[_ Hno]|[Hm _]];
      [contradiction|].
    rewrite (fallback_zero text Hm), (accumulate_blank text Hb).
    apply map_zero_of_zeros. apply Forall_replicate. reflexivity.
Qed.

Lemma fallback_blank_text_witness :
  generateFallbackEmbedding (num := PrimFloat.float) "   " = replicate 384 num_zero.
Proof.
  apply (fallback_blank_text "   "). reflexivity.
Defined.

Section FallbackBounds.
#[local] Open Scope R_scope.

Lemma square_le_squares (x : R) (v : list R) :
  In x v -> x * x <= squares_from 0 v.
Proof.
  induction v as [|y v IH]; intros Hin; [destruct Hin|].
  rewrite squares_from_cons. pose proof (squares_nonneg v) as Hv.
  pose proof (Rle_0_sqr y) as Hy. unfold Rsqr in Hy.
  destruct Hin as [->|Hin]; [lra|]. specialize (IH Hin). lra.
Qed.

(** X4. In exact arithmetic every component of a fallback embedding lies
    in [0, 1]; [fallback_components_binary64] evaluates a sample on
    binary64. *)
Theorem fallback_components_bounded (text : string) (x : R) :
  In x (generateFallbackEmbedding (num := R) text) -> 0 <= x <= 1.
Proof.
  intros Hin. split.
  - apply (proj1 (List.Forall_forall _ _) (fallback_nonneg text) x Hin).
  - destruct (magnitude_cases (accumulate (num := R) text)) as [[Hpos _]|[Hm _]].
    + pose proof (square_le_squares x _ Hin) as Hsq.
      rewrite (fallback_squares_one text Hpos) in Hsq.
      destruct (Rle_dec x 1) as [Hle|Hgt]; [exact Hle|].
      exfalso. assert (1 < x) by lra. assert (1 * 1 < x * x) by nra. lra.
    + rewrite (fallback_zero text Hm) in Hin. apply in_map_iff in Hin.
      destruct Hin as (y & <- & _). lra.
Qed.

Lemma fallback_components_bounded_witness :
  0 <= hd 0 (generateFallbackEmbedding (num := R) "a") <= 1.
Proof.
  apply (fallback_components_bounded "a").
  assert (length (generateFallbackEmbedding (num := R) "a") = 384%nat) as Hlen.
  { unfold generateFallbackEmbedding. rewrite length_map. apply length_accumulate. }
  destruct (generateFallbackEmbedding (num := R) "a") as [|y l];
    [discriminate Hlen|]. left. reflexivity.
Defined.
End FallbackBounds.

Example fallback_components_binary64 :
  forallb (fun x => num_leb num_zero x && num_leb x (num_of_nat 1))
    (generateFallbackEmbedding (num := PrimFloat.float)
       "Senior Go engineer with Kubernetes")
  = true.
Proof. vm_compute. reflexivity. Qed.

(** ** The match run, turn by turn *)

Section RunExact.
Import MatchResumes MatchFacts RunEffects.
Context {num : Type} `{Number num}.
Variable env : environment num.

Lemma needs_embedding_not_skipped (r : resume num) (text : string) :
  needs_embedding r = Some text -> skipped r = false.
Proof.
  unfold needs_embedding, skipped, is_truthy.
  destruct (embedding r); [discriminate|]. intros ->. reflexivity.
Qed.

Lemma map_id_rows (l : list (resume num)) : map (fun x => x) l = l.
Proof. induction l as [|x l IH]; cbn [map]; [reflexivity|]. rewrite IH. reflexivity. Qed.

Lemma world_eta (w : world num) :
  {| jobs := jobs w; resumes := resumes w; matches := matches w; calls := calls w |} = w.
Proof. destruct w. reflexivity. Qed.

(** One turn of the loop, exactly. *)
Lemma process_resume_exact jobId threshold je found r w :
  process_resume env jobId threshold je found r w
  = (after_turn env jobId threshold je w r,
     Returned (found ++ matching_entries env threshold je [r])).
Proof.
  unfold after_turn, turn_requests, turn_on_row, matching_entries, score,
    resume_vector, needs_embedding, process_resume.
  cbn [flat_map]. rewrite app_nil_r. fold (skipped r).
  destruct (skipped r) eqn:Hskip.
  - assert (truthy_text (resume_text r) = None) as Htext.
    { unfold skipped, is_truthy in Hskip.
      destruct (truthy_text (resume_text r)); [discriminate Hskip|reflexivity]. }
    rewrite Htext. destruct (embedding r); cbn;
      rewrite ?app_nil_r, map_id_rows, world_eta; reflexivity.
  - destruct (embedding r) as [cached_vector|];
      [|destruct (truthy_text (resume_text r)) as [text|]].
    + unfold bind, ret. cbn.
      destruct je as [v1|].
      * unfold upsert_match, record_call, modify, bind, ret. cbn.
        destruct (num_leb threshold (calculateCosineSimilarity v1 cached_vector)) eqn:Hm;
          cbn; unfold record_of; rewrite Hm, map_id_rows, ?app_nil_r; reflexivity.
      * cbn. rewrite ?app_nil_r, map_id_rows, world_eta. reflexivity.
    + unfold bind at 1 2. rewrite generateEmbedding_run.
      unfold update_resume_embedding, record_call, modify, bind, ret. cbn.
      destruct je as [v1|].
      * unfold upsert_match, record_call, modify, bind, ret. cbn.
        destruct (num_leb threshold
                    (calculateCosineSimilarity v1 (generated env text))) eqn:Hm;
          cbn; unfold record_of; rewrite Hm, <- ?app_assoc, ?app_nil_r; reflexivity.
      * cbn. rewrite <- ?app_assoc, ?app_nil_r. reflexivity.
    + unfold bind, ret. cbn.
      destruct je; cbn; rewrite ?app_nil_r, map_id_rows, world_eta; reflexivity.
Qed.

(** The loop, exactly: the turns one after the other. *)
Lemma process_resumes_exact jobId threshold je rs : forall found w,
  process_resumes env jobId threshold je found rs w
  = (fold_left (after_turn env jobId threshold je) rs w,
     Returned (found ++ matching_entries env threshold je rs)).
Proof.
  induction rs as [|r rs IH]; intros found w.
  - cbn. rewrite app_nil_r. reflexivity.
  - cbn [process_resumes fold_left]. unfold bind.
    rewrite process_resume_exact, IH, (matching_entries_cons env threshold je r rs).
    rewrite <- app_assoc. reflexivity.
Qed.

Lemma lookup_insert_all (ps : list ((string * string) * MatchRecord num)) : forall m k,
  insert_all ps m !! k
  = match last_written ps k with
    | Some v => Some v
    | None => m !! k
    end.
Proof.
  induction ps as [|p ps IH]; intros m k; cbn [insert_all fold_left last_written];
    [reflexivity|].
  fold (insert_all ps (<[fst p := snd p]> m)). rewrite IH.
  destruct (last_written ps k); [reflexivity|].
  rewrite lookup_insert. destruct (decide (fst p = k)); reflexivity.
Qed.

Lemma upserts_cons jobId threshold je r rs :
  upserts env jobId threshold je (r :: rs)
  = upserts env jobId threshold je [r] ++ upserts env jobId threshold je rs.
Proof. unfold upserts. cbn [flat_map]. rewrite app_nil_r. reflexivity. Qed.

Lemma insert_all_app (ps qs : list ((string * string) * MatchRecord num)) m :
  insert_all (ps ++ qs) m = insert_all qs (insert_all ps m).
Proof. unfold insert_all. apply fold_left_app. Qed.

Lemma insert_all_turn jobId threshold je r m :
  insert_all (upserts env jobId threshold je [r]) m
  = match score env je r with
    | Some x => <[(jobId, id r) := record_of env jobId threshold r x]> m
    | None => m
    end.
Proof.
  unfold upserts. cbn [flat_map]. rewrite app_nil_r.
  destruct (score env je r); reflexivity.
Qed.

(** The world after the loop, field by field. *)
Lemma after_turns jobId threshold je rs : forall w,
  let w' := fold_left (after_turn env jobId threshold je) rs w in
  jobs w' = jobs w
  /\ resumes w' = map (turns_on_row env rs) (resumes w)
  /\ matches w' = insert_all (upserts env jobId threshold je rs) (matches w)
  /\ calls w' = calls w ++ flat_map (turn_requests env jobId threshold je) rs.
Proof.
  induction rs as [|r rs IH]; intros w; cbn [fold_left].
  - cbn. rewrite map_id_rows, app_nil_r. repeat split; reflexivity.
  - destruct (IH (after_turn env jobId threshold je w r)) as (Hj & Hr & Hm & Hc).
    cbv zeta. rewrite Hj, Hr, Hm, Hc. cbn [after_turn jobs resumes matches calls].
    split; [reflexivity|]. split; [|split].
    + rewrite map_map. reflexivity.
    + rewrite upserts_cons, insert_all_app, insert_all_turn. reflexivity.
    + cbn [flat_map]. rewrite <- app_assoc. reflexivity.
Qed.

(** The step on the job, exactly. *)
Lemma job_step_exact (jobId : string) (j : job num) (w : world num) :
  (match job_embedding j, truthy_text (description_text j) with
   | None, Some text =>
       let* e := generateEmbedding env text in
       do update_job_embedding jobId e then
       ret (Some e)
   | cached, _ => ret cached
   end) w = (after_job_step env jobId j w, Returned (job_vector env j)).
Proof.
  unfold after_job_step, job_needs_embedding, job_vector.
  destruct (job_embedding j) as [cached_vector|]; [reflexivity|].
  destruct (truthy_text (description_text j)) as [text|]; [|reflexivity].
  unfold bind at 1. rewrite generateEmbedding_run.
  unfold update_job_embedding, record_call, modify, bind, ret. cbn.
  rewrite <- app_assoc. reflexivity.
Qed.

(** The run, exactly. *)
Lemma match_run_exact (req : MatchRequest num) (w : world num) :
  let jobId := jobId_of req in
  let threshold := default default_threshold (threshold_of req) in
  match_run env req w
  = match jobs w !! jobId with
    | None => (w, Raised (ErrorObject "Job not found"))
    | Some j =>
        let w1 := after_job_step env jobId j w in
        let je := job_vector env j in
        let rs := loaded jobId w1 in
        match resumes_error env with
        | Some error => (w1, Raised error)
        | None =>
            (fold_left (after_turn env jobId threshold je) rs w1,
             Returned
               {| sum_job_id := jobId;
                  total_resumes := length rs;
                  matched_resumes :=
                    length (Array_sort by_score_descending
                              (matching_entries env threshold je rs));
                  sum_threshold := threshold;
                  sum_matches := Array_sort by_score_descending
                                   (matching_entries env threshold je rs) |})
        end
    end.
Proof.
  intros jobId threshold. unfold match_run. fold jobId threshold.
  unfold bind at 1. unfold gets at 1.
  destruct (jobs w !! jobId) as [j|]; [|reflexivity].
  unfold bind at 1. rewrite job_step_exact.
  unfold bind at 1. unfold gets at 1.
  destruct (resumes_error env) as [error|]; [reflexivity|].
  unfold bind at 1. rewrite process_resumes_exact. reflexivity.
Qed.
End RunExact.

(** ** The match run: answers, failures and what is left alone *)

Section RunTheorems.
Import MatchResumes MatchFacts RunEffects.
Context {num : Type} `{Number num}.
Variable env : environment num.

Lemma handler_exact (req : request num) (w : world num) :
  handler env req w
  = if String.eqb (method req) "OPTIONS"
    then (w, Returned {| http_status := 200; payload := None |})
    else
      match json req with
      | Raised error =>
          (w, Returned {| http_status := 500;
                          payload := Some (Failure (error_message error)) |})
      | Returned parsed =>
          match match_run env parsed w with
          | (w', Returned s) =>
              (w', Returned {| http_status := 200; payload := Some (Success s) |})
          | (w', Raised error) =>
              (w', Returned {| http_status := 500;
                               payload := Some (Failure (error_message error)) |})
          end
      end.
Proof.
  unfold handler. destruct (String.eqb (method req) "OPTIONS"); [reflexivity|].
  unfold try_catch, bind, lift, ret.
  destruct (json req) as [parsed|error]; [|reflexivity].
  destruct (match_run env parsed w) as [w' [s|error]]; reflexivity.
Qed.

(** X5. The handler of the match run never throws: every request gets a
    response, with status 200 and no failure body, or with status 500 and
    the body [{success: false, error}]. *)
Theorem handler_always_answers (req : request num) (w : world num) :
  exists resp,
    snd (handler env req w) = Returned resp
    /\ ((http_status resp = 200
         /\ (payload resp = None \/ exists s, payload resp = Some (Success s)))
        \/ (http_status resp = 500
            /\ exists error, payload resp = Some (Failure error))).
Proof.
  rewrite handler_exact.
  destruct (String.eqb (method req) "OPTIONS").
  - eexists. split; [reflexivity|]. left. split; [reflexivity|]. left. reflexivity.
  - destruct (json req) as [parsed|error].
    + destruct (match_run env parsed w) as [w' [s|error]].
      * eexists. split; [reflexivity|]. left. split; [reflexivity|].
        right. exists s. reflexivity.
      * eexists. split; [reflexivity|]. right. split; [reflexivity|].
        eexists. reflexivity.
    + eexists. split; [reflexivity|]. right. split; [reflexivity|].
      eexists. reflexivity.
Qed.

(** X6. When no job has the requested id, the run fails with
    [Job not found] (status 500) and asks nothing of the store or of the
    embedding model: the world is as before. *)
Theorem job_not_found (req : request num) (parsed : MatchRequest num) (w : world num) :
  method req <> "OPTIONS"%string ->
  json req = Returned parsed ->
  jobs w !! jobId_of parsed = None ->
  handler env req w
  = (w, Returned {| http_status := 500;
                    payload := Some (Failure "Job not found") |}).
Proof.
  intros Hmethod Hjson Hjob. rewrite handler_exact.
  apply String.eqb_neq in Hmethod. rewrite Hmethod, Hjson.
  rewrite match_run_exact. cbv zeta. rewrite Hjob. reflexivity.
Qed.

(** X7. When the store reports an error for the query of the resumes, the
    run fails with the message of that error, no resume is scored and no
    match record is written; the embedding of the job may already have
    been cached. *)
Theorem resumes_query_fails (req : request num) (parsed : MatchRequest num)
    (j : job num) (error : thrown) (w : world num) :
  method req <> "OPTIONS"%string ->
  json req = Returned parsed ->
  jobs w !! jobId_of parsed = Some j ->
  resumes_error env = Some error ->
  handler env req w
  = (after_job_step env (jobId_of parsed) j w,
     Returned {| http_status := 500;
                 payload := Some (Failure (error_message error)) |})
  /\ matches (fst (handler env req w)) = matches w
  /\ resumes (fst (handler env req w)) = resumes w
  /\ (forall rec, upserted rec (fst (handler env req w)) -> upserted rec w).
Proof.
  intros Hmethod Hjson Hjob Herror.
  assert (handler env req w
          = (after_job_step env (jobId_of parsed) j w,
             Returned {| http_status := 500;
                         payload := Some (Failure (error_message error)) |})) as Hrun.
  { rewrite handler_exact. apply String.eqb_neq in Hmethod.
    rewrite Hmethod, Hjson, match_run_exact. cbv zeta.
    rewrite Hjob, Herror. reflexivity. }
  rewrite Hrun. cbn [fst]. split; [reflexivity|].
  unfold after_job_step, upserted.
  destruct (job_needs_embedding j) as [text|]; cbn [matches resumes calls].
  - split; [reflexivity|]. split; [reflexivity|].
    intros rec Hin. apply in_app_iff in Hin.
    destruct Hin as [Hin|[Hin|[Hin|[]]]]; [exact Hin|discriminate Hin|discriminate Hin].
  - split; [reflexivity|]. split; [reflexivity|]. intros rec Hin. exact Hin.
Qed.

Lemma length_matching_entries threshold je (rs : list (resume num)) :
  length (matching_entries env threshold je rs) <= length rs.
Proof.
  induction rs as [|r rs IH]; [reflexivity|].
  rewrite matching_entries_cons, length_app. cbn [length].
  unfold matching_entries at 1. cbn [flat_map]. rewrite app_nil_r.
  destruct (score env je r) as [x|]; [destruct (num_leb threshold x)|];
    cbn [length]; lia.
Qed.

(** X8. The summary of a run that returns echoes the job id and the
    threshold used (0.6 when none is given), counts as [total_resumes]
    every resume of the job, the skipped ones included, and as
    [matched_resumes] the entries of the list, which are never more than
    the resumes. *)
Theorem summary_counts (req : MatchRequest num) (w w' : world num) (s : summary num) :
  match_run env req w = (w', Returned s) ->
  sum_job_id s = jobId_of req
  /\ sum_threshold s = default default_threshold (threshold_of req)
  /\ total_resumes s = length (loaded (jobId_of req) w)
  /\ matched_resumes s = length (sum_matches s)
  /\ matched_resumes s <= total_resumes s.
Proof.
  rewrite match_run_exact. cbv zeta.
  destruct (jobs w !! jobId_of req) as [j|]; [|discriminate].
  destruct (resumes_error env); [discriminate|].
  intros E. injection E as _ <-. cbn.
  assert (loaded (jobId_of req) (after_job_step env (jobId_of req) j w)
          = loaded (jobId_of req) w) as ->.
  { unfold loaded, after_job_step. destruct (job_needs_embedding j); reflexivity. }
  repeat split.
  rewrite (Permutation_length (Array_sort_perm _ _)). apply length_matching_entries.
Qed.

(** X9. In every arithmetic, binary64 included, the entries of the list a
    run returns are those of the resumes of the job that are scored with a
    similarity at or above the threshold, each with the id, the candidate
    name, the file name and the similarity of its resume. *)
Theorem entries_of_summary (req : MatchRequest num) (w w' : world num) (s : summary num) :
  match_run env req w = (w', Returned s) ->
  exists j,
    jobs w !! jobId_of req = Some j
    /\ forall e,
         In e (sum_matches s)
         <-> exists r x,
               In r (loaded (jobId_of req) w)
               /\ score env (job_vector env j) r = Some x
               /\ num_leb (default default_threshold (threshold_of req)) x = true
               /\ e = entry_of r x.
Proof.
  intros E. destruct (match_run_returns env req w w' s E) as (j & Hj & Hs & _).
  exists j. split; [exact Hj|]. intros e. rewrite Hs. split.
  - intros He. apply (Permutation_in _ (Array_sort_perm _ _)) in He.
    apply in_matching_entries. exact He.
  - intros He. apply (Permutation_in _ (Permutation_sym (Array_sort_perm _ _))).
    apply in_matching_entries. exact He.
Qed.
End RunTheorems.

(** ** The match run: what it leaves alone, what it caches, re-running it *)

Section RunStore.
Import MatchResumes MatchFacts RunEffects.
Context {num : Type} `{Number num}.
Variable env : environment num.

Lemma without_embedding_turn (r x : resume num) :
  without_embedding (turn_on_row env r x) = without_embedding x.
Proof.
  unfold turn_on_row. destruct (needs_embedding r); [|reflexivity].
  destruct (String.eqb (id x) (id r)); reflexivity.
Qed.

Lemma without_embedding_turns (rs : list (resume num)) : forall x,
  without_embedding (turns_on_row env rs x) = without_embedding x.
Proof.
  induction rs as [|r rs IH]; intros x; cbn [turns_on_row fold_left]; [reflexivity|].
  fold (turns_on_row env rs (turn_on_row env r x)).
  rewrite IH. apply without_embedding_turn.
Qed.

Lemma last_written_key jobId threshold je (rs : list (resume num)) k v :
  last_written (upserts env jobId threshold je rs) k = Some v ->
  fst k = jobId /\ In (snd k) (map id rs).
Proof.
  induction rs as [|r rs IH]; [discriminate|].
  rewrite upserts_cons. unfold upserts at 1. cbn [flat_map]. rewrite app_nil_r.
  destruct (score env je r) as [x|]; cbn [app last_written].
  - destruct (last_written (upserts env jobId threshold je rs) k) as [v'|] eqn:Hl.
    + intros Hv. injection Hv as ->.
      destruct (IH eq_refl) as [Hk Hin]. split; [exact Hk|right; exact Hin].
    + cbn [fst snd]. destruct (decide ((jobId, id r) = k)) as [<-|]; [|discriminate].
      intros _. split; [reflexivity|left; reflexivity].
  - intros Hl. destruct (IH Hl) as [Hk Hin]. split; [exact Hk|right; exact Hin].
Qed.

Lemma loaded_after_job_step jobId (j : job num) (w : world num) :
  loaded jobId (after_job_step env jobId j w) = loaded jobId w.
Proof. unfold loaded, after_job_step. destruct (job_needs_embedding j); reflexivity. Qed.

(** The world after a run, field by field, whatever its outcome. *)
Lemma match_run_world (req : MatchRequest num) (w : world num) :
  let jobId := jobId_of req in
  let threshold := default default_threshold (threshold_of req) in
  fst (match_run env req w)
  = match jobs w !! jobId with
    | None => w
    | Some j =>
        let w1 := after_job_step env jobId j w in
        match resumes_error env with
        | Some _ => w1
        | None =>
            fold_left (after_turn env jobId threshold (job_vector env j))
                      (loaded jobId w) w1
        end
    end.
Proof.
  cbv zeta. rewrite match_run_exact. cbv zeta.
  destruct (jobs w !! jobId_of req) as [j|]; [|reflexivity].
  rewrite loaded_after_job_step.
  destruct (resumes_error env); reflexivity.
Qed.

(** X10. Whatever its outcome, a run changes no field of a resume but its
    embedding, adds and removes no job and changes no job but the
    requested one, removes no match record and changes none of another
    job. *)
Theorem run_leaves_alone (req : MatchRequest num) (w : world num) :
  let w' := fst (match_run env req w) in
  map without_embedding (resumes w') = map without_embedding (resumes w)
  /\ (forall k, k <> jobId_of req -> jobs w' !! k = jobs w !! k)
  /\ (forall k, jobs w' !! k = None <-> jobs w !! k = None)
  /\ (forall key, matches w !! key <> None -> matches w' !! key <> None)
  /\ (forall key, fst key <> jobId_of req -> matches w' !! key = matches w !! key).
Proof.
  cbv zeta. rewrite match_run_world. cbv zeta.
  destruct (jobs w !! jobId_of req) as [j|] eqn:Hj.
  2:{ split; [reflexivity|]. split; [reflexivity|]. split; [reflexivity|].
      split; [intros key Hk; exact Hk|reflexivity]. }
  set (w1 := after_job_step env (jobId_of req) j w).
  assert (resumes w1 = resumes w /\ matches w1 = matches w
          /\ (forall k, k <> jobId_of req -> jobs w1 !! k = jobs w !! k)
          /\ (forall k, jobs w1 !! k = None <-> jobs w !! k = None))
    as (Hr1 & Hm1 & Hj1 & Hn1).
  { unfold w1, after_job_step. destruct (job_needs_embedding j) as [text|];
      cbn [jobs resumes matches].
    - split; [reflexivity|]. split; [reflexivity|]. split.
      + intros k Hk. apply lookup_alter_ne. intros Heq. apply Hk. symmetry. exact Heq.
      + intros k. rewrite lookup_alter.
        destruct (decide (jobId_of req = k)) as [<-|]; [|reflexivity].
        rewrite Hj. split; discriminate.
    - repeat split; auto. }
  destruct (resumes_error env) as [error|].
  - rewrite Hr1, Hm1. split; [reflexivity|]. split; [exact Hj1|]. split; [exact Hn1|].
    split; [intros key Hk; exact Hk|reflexivity].
  - destruct (after_turns env (jobId_of req)
                (default default_threshold (threshold_of req)) (job_vector env j)
                (loaded (jobId_of req) w) w1) as (Hjobs & Hres & Hmat & _).
    rewrite Hjobs, Hres, Hmat, Hr1, Hm1.
    split; [|split; [exact Hj1|split; [exact Hn1|split]]].
    + rewrite map_map. apply map_ext. intros x. apply without_embedding_turns.
    + intros key Hk. rewrite lookup_insert_all.
      destruct (last_written _ key); [discriminate|exact Hk].
    + intros key Hk. rewrite lookup_insert_all.
      destruct (last_written _ key) as [v|] eqn:Hl; [|reflexivity].
      destruct (last_written_key _ _ _ _ _ _ Hl) as [Hkey _]. contradiction.
Qed.

Lemma requested_text_turn jobId threshold je (r : resume num) :
  omap requested_text (turn_requests env jobId threshold je r)
  = match needs_embedding r with
    | Some text => [text]
    | None => []
    end.
Proof.
  unfold turn_requests.
  destruct (needs_embedding r), (score env je r); reflexivity.
Qed.

Lemma requested_text_turns jobId threshold je (rs : list (resume num)) :
  omap requested_text (flat_map (turn_requests env jobId threshold je) rs)
  = omap needs_embedding rs.
Proof.
  induction rs as [|r rs IH]; [reflexivity|].
  cbn [flat_map]. rewrite omap_app, requested_text_turn, IH.
  change (omap needs_embedding (r :: rs))
    with (match needs_embedding r with
          | Some text => text :: omap needs_embedding rs
          | None => omap needs_embedding rs
          end).
  destruct (needs_embedding r); reflexivity.
Qed.

(** X11. A run that returns asks for an embedding exactly for the job, when
    the job has text and no cached vector, and then, in load order, for
    each resume of the job that has text and no cached vector: once each,
    and never for a document with a cached vector or without text. *)
Theorem embeddings_requested (req : MatchRequest num) (w w' : world num) (s : summary num) :
  match_run env req w = (w', Returned s) ->
  exists j new,
    jobs w !! jobId_of req = Some j
    /\ calls w' = calls w ++ new
    /\ omap requested_text new
       = match job_needs_embedding j with
         | Some text => [text]
         | None => []
         end
         ++ omap needs_embedding (loaded (jobId_of req) w).
Proof.
  intros E. pose proof (f_equal fst E) as Hw. cbn [fst] in Hw.
  rewrite match_run_world in Hw. cbv zeta in Hw.
  rewrite match_run_exact in E. cbv zeta in E.
  destruct (jobs w !! jobId_of req) as [j|]; [|discriminate E].
  destruct (resumes_error env); [discriminate E|]. clear E.
  destruct (after_turns env (jobId_of req)
              (default default_threshold (threshold_of req)) (job_vector env j)
              (loaded (jobId_of req) w) (after_job_step env (jobId_of req) j w))
    as (_ & _ & _ & Hcalls).
  cbv zeta in Hcalls. rewrite Hw in Hcalls.
  exists j.
  exists (match job_needs_embedding j with
          | Some text => [EmbeddingRequested text; JobEmbeddingStored (jobId_of req)]
          | None => []
          end
          ++ flat_map (turn_requests env (jobId_of req)
                         (default default_threshold (threshold_of req))
                         (job_vector env j)) (loaded (jobId_of req) w)).
  split; [reflexivity|]. split.
  - rewrite Hcalls. unfold after_job_step.
    destruct (job_needs_embedding j); cbn [calls];
      rewrite <- ?app_assoc; reflexivity.
  - rewrite omap_app, requested_text_turns.
    destruct (job_needs_embedding j); reflexivity.
Qed.
End RunStore.

(** ** Running the match run again *)

Section Rerun.
Import MatchResumes MatchFacts RunEffects.
Context {num : Type} `{Number num}.
Variable env : environment num.

Lemma id_turn_on_row (r x : resume num) : id (turn_on_row env r x) = id x.
Proof.
  unfold turn_on_row. destruct (needs_embedding r); [|reflexivity].
  destruct (String.eqb (id x) (id r)); reflexivity.
Qed.





Lemma NoDup_filter_ids (p : resume num -> bool) (l : list (resume num)) :
  List.NoDup (map id l) -> List.NoDup (map id (List.filter p l)).
Proof.
  induction l as [|x l IH]; cbn [map List.filter]; [intros Hnd; exact Hnd|].
  intros Hnd. apply List.NoDup_cons_iff in Hnd as [Hx Hnd].
  destruct (p x); [|apply IH; exact Hnd].
  cbn [map]. apply List.NoDup_cons_iff. split; [|apply IH; exact Hnd].
  intros Hin. apply Hx. apply in_map_iff in Hin. destruct Hin as (y & Hy & Hin).
  apply filter_In in Hin. destruct Hin as [Hin _].
  rewrite <- Hy. apply in_map. exact Hin.
Qed.









Lemma last_written_scored jobId threshold je (rs : list (resume num)) (r : resume num) :
  List.NoDup (map id rs) -> In r rs ->
  last_written (upserts env jobId threshold je rs) (jobId, id r)
  = match score env je r with
    | Some x => Some (record_of env jobId threshold r x)
    | None => None
    end.
Proof.
  induction rs as [|r0 rs IH]; intros Hnd Hin; [destruct Hin|].
  cbn [map] in Hnd. apply List.NoDup_cons_iff in Hnd as [Hr0 Hnd].
  assert (last_written (upserts env jobId threshold je (r0 :: rs)) (jobId, id r)
          = match last_written (upserts env jobId threshold je rs) (jobId, id r) with
            | Some v => Some v
            | None =>
                match score env je r0 with
                | Some x => if decide (id r0 = id r)
                            then Some (record_of env jobId threshold r0 x) else None
                | None => None
                end
            end) as ->.
  { rewrite upserts_cons. unfold upserts at 1. cbn [flat_map]. rewrite app_nil_r.
    destruct (score env je r0) as [x|]; cbn [app last_written fst snd].
    - destruct (last_written (upserts env jobId threshold je rs) (jobId, id r));
        [reflexivity|].
      destruct (decide ((jobId, id r0) = (jobId, id r))) as [Heq|Hne],
               (decide (id r0 = id r)) as [Heq'|Hne']; try reflexivity.
      + exfalso. apply Hne'. injection Heq as Heq. exact Heq.
      + exfalso. apply Hne. rewrite Heq'. reflexivity.
    - destruct (last_written (upserts env jobId threshold je rs) (jobId, id r));
        reflexivity. }
  destruct Hin as [->|Hin].
  - destruct (last_written (upserts env jobId threshold je rs) (jobId, id r))
      as [v|] eqn:Hl.
    + exfalso. apply Hr0. apply (last_written_key env _ _ _ _ _ _ Hl).
    + destruct (score env je r) as [x|]; [|reflexivity].
      destruct (decide (id r = id r)) as [_|Hne]; [reflexivity|].
      exfalso. apply Hne. reflexivity.
  - rewrite (IH Hnd Hin). destruct (score env je r) as [x|]; [reflexivity|].
    destruct (score env je r0) as [x0|]; [|reflexivity].
    destruct (decide (id r0 = id r)) as [Heq|]; [|reflexivity].
    exfalso. apply Hr0. rewrite Heq. apply in_map. exact Hin.
Qed.

(** X12. With distinct resume ids, after a run that returns the store holds
    under (job, resume), for every resume of the job that was scored, the
    record with its similarity and the verdict against the threshold; the
    record of a resume that was not scored is what it was before the run
    (a stale record is not removed). *)
Theorem records_after_run (req : MatchRequest num) (w w' : world num) (s : summary num) :
  List.NoDup (map id (resumes w)) ->
  match_run env req w = (w', Returned s) ->
  exists j,
    jobs w !! jobId_of req = Some j
    /\ forall r, In r (loaded (jobId_of req) w) ->
         matches w' !! (jobId_of req, id r)
         = match score env (job_vector env j) r with
           | Some x =>
               Some (record_of env (jobId_of req)
                       (default default_threshold (threshold_of req)) r x)
           | None => matches w !! (jobId_of req, id r)
           end.
Proof.
  intros Hnd E. pose proof (f_equal fst E) as Hw. cbn [fst] in Hw.
  rewrite match_run_world in Hw. cbv zeta in Hw.
  rewrite match_run_exact in E. cbv zeta in E.
  destruct (jobs w !! jobId_of req) as [j|]; [|discriminate E].
  destruct (resumes_error env); [discriminate E|]. clear E.
  exists j. split; [reflexivity|]. intros r Hr.
  destruct (after_turns env (jobId_of req)
              (default default_threshold (threshold_of req)) (job_vector env j)
              (loaded (jobId_of req) w) (after_job_step env (jobId_of req) j w))
    as (_ & _ & Hm & _).
  cbv zeta in Hm. rewrite Hw in Hm. rewrite Hm, lookup_insert_all.
  rewrite last_written_scored; [|apply NoDup_filter_ids; exact Hnd|exact Hr].
  destruct (score env (job_vector env j) r); [reflexivity|].
  unfold after_job_step. destruct (job_needs_embedding j); reflexivity.
Qed.

(** *** A later run, in another environment *)

Variable env2 : environment num.









End Rerun.

(** ** The further properties of the run on a sample store *)

Section RunWitnesses.
Import MatchResumes MatchFacts RunEffects.

Lemma sample_run4 :
  match_run Samples.env_unavailable RunSamples.request1 RunSamples.world4
  = (RunSamples.world4_after, Returned RunSamples.summary4).
Proof. vm_compute. reflexivity. Qed.

Lemma sample_ids4 : List.NoDup (map id (resumes RunSamples.world4)).
Proof.
  apply NoDup_ListNoDup. apply (bool_decide_unpack _). vm_compute. exact I.
Qed.

Lemma job_not_found_witness :
  handler Samples.env_unavailable (Samples.post "job-9") RunSamples.world4
  = (RunSamples.world4,
     Returned {| http_status := 500; payload := Some (Failure "Job not found") |}).
Proof.
  apply (job_not_found Samples.env_unavailable (Samples.post "job-9")
           {| jobId_of := "job-9"; threshold_of := None |} RunSamples.world4).
  - intros Heq. discriminate Heq.
  - reflexivity.
  - reflexivity.
Defined.

Lemma resumes_query_fails_witness :
  snd (handler RunSamples.env_store_error (Samples.post "job-1") RunSamples.world4)
  = Returned {| http_status := 500; payload := Some (Failure "Unknown error") |}
  /\ matches (fst (handler RunSamples.env_store_error (Samples.post "job-1")
                     RunSamples.world4))
     = matches RunSamples.world4.
Proof.
  destruct (resumes_query_fails RunSamples.env_store_error (Samples.post "job-1")
              {| jobId_of := "job-1"; threshold_of := None |} Samples.job1 OtherValue
              RunSamples.world4
              ltac:(intros Heq; discriminate Heq) eq_refl eq_refl eq_refl)
    as (Hrun & Hmatches & _).
  split; [rewrite Hrun; reflexivity|exact Hmatches].
Defined.

Lemma summary_counts_witness :
  total_resumes RunSamples.summary4 = 4
  /\ matched_resumes RunSamples.summary4 <= 4.
Proof.
  destruct (summary_counts _ _ _ _ _ sample_run4) as (_ & _ & Htotal & _ & Hle).
  rewrite Htotal in Hle. split; [exact Htotal|exact Hle].
Defined.

Lemma entries_of_summary_witness :
  List.Forall
    (fun e => exists r, In r RunSamples.four_resumes /\ entry_resume_id e = id r)
    (sum_matches RunSamples.summary4).
Proof.
  apply List.Forall_forall. intros e He.
  destruct (entries_of_summary _ _ _ _ _ sample_run4) as (j & _ & Hin).
  destruct (proj1 (Hin e) He) as (r & x & Hr & _ & _ & ->).
  exists r. split; [|reflexivity].
  unfold loaded in Hr. apply filter_In in Hr. exact (proj1 Hr).
Defined.

Lemma embeddings_requested_witness :
  exists new,
    calls RunSamples.world4_after = calls RunSamples.world4 ++ new
    /\ omap requested_text new = ["Go and distributed systems"%string].
Proof.
  destruct (embeddings_requested _ _ _ _ _ sample_run4) as (j & new & Hj & Hcalls & Hreq).
  exists new. split; [exact Hcalls|].
  assert (jobs RunSamples.world4 !! jobId_of RunSamples.request1
          = Some Samples.job1) as Hjob by (vm_compute; reflexivity).
  rewrite Hjob in Hj. injection Hj as <-. exact Hreq.
Defined.

Lemma records_after_run_witness :
  matches RunSamples.world4_after !! ("job-1"%string, "resume-P"%string) = None
  /\ matches RunSamples.world4_after !! ("job-1"%string, "resume-B"%string) <> None.
Proof.
  destruct (records_after_run _ _ _ _ _ sample_ids4 sample_run4) as (j & Hj & Hrec).
  assert (jobs RunSamples.world4 !! jobId_of RunSamples.request1
          = Some Samples.job1) as Hjob by (vm_compute; reflexivity).
  rewrite Hjob in Hj. injection Hj as <-.
  assert (In RunSamples.resume_pending (loaded "job-1" RunSamples.world4)) as HP.
  { apply filter_In. split; [right; right; left; reflexivity|reflexivity]. }
  assert (In (Samples.resume_with "resume-B" (Samples.vector_of 4 3))
            (loaded "job-1" RunSamples.world4)) as HB.
  { apply filter_In. split; [right; left; reflexivity|reflexivity]. }
  apply Hrec in HP. apply Hrec in HB.
  cbn [jobId_of id RunSamples.request1 RunSamples.resume_pending
       Samples.resume_with] in HP, HB.
  split.
  - rewrite HP. vm_compute. reflexivity.
  - rewrite HB. vm_compute. discriminate.
Defined.

End RunWitnesses.

(** ** Further properties of the text extraction *)

Section CleanTextFacts.
Import ParseDocument TextShape.

Lemma is_space_eq (c : ascii) : is_space c = true -> c = space.
Proof.
  unfold is_space. intros Hc. apply Nat.eqb_eq in Hc.
  rewrite <- (ascii_nat_embedding c), Hc. reflexivity.
Qed.

Lemma graphic_plain (c : ascii) :
  graphic c = true ->
  is_space c = false /\ isWhitespace c = false /\ is_newline c = false
  /\ unprintable c = false.
Proof.
  unfold graphic, is_space, isWhitespace, is_newline, unprintable. cbv zeta.
  intros Hc. apply andb_true_iff in Hc as [Hlo Hhi].
  apply Nat.leb_le in Hlo. apply Nat.leb_le in Hhi.
  repeat split.
  - apply Nat.eqb_neq. lia.
  - replace (nat_of_ascii c <=? 13)%nat with false by (symmetry; apply Nat.leb_gt; lia).
    replace (nat_of_ascii c =? 32)%nat with false by (symmetry; apply Nat.eqb_neq; lia).
    replace (nat_of_ascii c =? 160)%nat with false by (symmetry; apply Nat.eqb_neq; lia).
    rewrite andb_false_r. reflexivity.
  - apply Nat.eqb_neq. lia.
  - replace (32 <=? nat_of_ascii c)%nat with true by (symmetry; apply Nat.leb_le; lia).
    replace (nat_of_ascii c <=? 126)%nat with true by (symmetry; apply Nat.leb_le; lia).
    reflexivity.
Qed.

Lemma kept_unit (c : ascii) :
  unprintable c = false -> isWhitespace c = false -> graphic c = true.
Proof.
  unfold graphic, unprintable. cbv zeta. intros Hu Hw.
  rewrite Hw, orb_false_r in Hu. apply negb_false_iff in Hu.
  unfold isWhitespace in Hw. cbv zeta in Hw.
  apply andb_true_iff in Hu as [Hlo Hhi].
  apply Nat.leb_le in Hlo. apply Nat.leb_le in Hhi.
  apply orb_false_iff in Hw as [Hw _]. apply orb_false_iff in Hw as [_ Hw].
  apply Nat.eqb_neq in Hw.
  apply andb_true_iff. split; apply Nat.leb_le; lia.
Qed.

Lemma space_facts :
  is_space space = true /\ isWhitespace space = true
  /\ is_newline space = false /\ unprintable space = false.
Proof. repeat split. Qed.

(** After the first replacement every unit is whitespace or graphic. *)
Lemma replaced_units (text : string) :
  all_units (fun c => isWhitespace c || graphic c) (replace_units unprintable text) = true.
Proof.
  induction text as [|c text IH]; [reflexivity|].
  cbn [replace_units all_units]. rewrite IH, andb_true_r.
  destruct (unprintable c) eqn:Hu; [reflexivity|].
  destruct (isWhitespace c) eqn:Hw; [reflexivity|].
  rewrite (kept_unit c Hu Hw). reflexivity.
Qed.

Lemma collapsed_spaced (s : string) : forall in_run,
  all_units (fun c => isWhitespace c || graphic c) s = true ->
  spaced in_run (collapse_runs isWhitespace in_run s) = true.
Proof.
  induction s as [|c s IH]; intros in_run Hall; [reflexivity|].
  cbn [all_units] in Hall. apply andb_true_iff in Hall as [Hc Hall].
  cbn [collapse_runs]. destruct (isWhitespace c) eqn:Hw.
  - destruct in_run; [apply IH, Hall|].
    cbn [spaced]. change (is_space space) with true. cbv iota.
    rewrite (IH true Hall). reflexivity.
  - cbn [orb] in Hc. destruct (graphic_plain c Hc) as (Hs & _).
    cbn [spaced]. rewrite Hs, Hc, (IH false Hall). reflexivity.
Qed.

Lemma spaced_cases (b : bool) (c : ascii) (s : string) :
  spaced b (String c s) = true ->
  (c = space /\ b = false /\ spaced true s = true)
  \/ (graphic c = true /\ spaced false s = true).
Proof.
  cbn [spaced]. destruct (is_space c) eqn:Hs; intros H;
    apply andb_true_iff in H as [H1 H2].
  - left. repeat split; [apply is_space_eq, Hs|destruct b; [discriminate|reflexivity]|exact H2].
  - right. split; assumption.
Qed.

Lemma spaced_weaken (s : string) : spaced true s = true -> spaced false s = true.
Proof.
  destruct s as [|c s]; [reflexivity|]. intros H.
  destruct (spaced_cases _ _ _ H) as [(_ & Hb & _)|(Hg & Hs)]; [discriminate|].
  cbn [spaced]. destruct (graphic_plain c Hg) as (-> & _). rewrite Hg, Hs. reflexivity.
Qed.

Lemma spaced_no_newline (s : string) : forall b in_run,
  spaced b s = true -> collapse_runs is_newline in_run s = s.
Proof.
  induction s as [|c s IH]; intros b in_run H; [reflexivity|].
  cbn [collapse_runs].
  destruct (spaced_cases _ _ _ H) as [(-> & _ & Hs)|(Hg & Hs)].
  - change (is_newline space) with false. cbv iota. rewrite (IH _ _ Hs). reflexivity.
  - destruct (graphic_plain c Hg) as (_ & _ & -> & _). rewrite (IH _ _ Hs). reflexivity.
Qed.

Lemma trim_start_spaced (s : string) : spaced true s = true -> trim_start s = s.
Proof.
  destruct s as [|c s]; [reflexivity|]. intros H.
  destruct (spaced_cases _ _ _ H) as [(_ & Hb & _)|(Hg & _)]; [discriminate|].
  cbn [trim_start]. destruct (graphic_plain c Hg) as (_ & -> & _). reflexivity.
Qed.

Lemma spaced_trim_start (s : string) (b : bool) :
  spaced b s = true -> spaced true (trim_start s) = true.
Proof.
  destruct s as [|c s]; [reflexivity|]. intros H.
  destruct (spaced_cases _ _ _ H) as [(-> & _ & Hs)|(Hg & Hs)].
  - cbn [trim_start]. change (isWhitespace space) with true. cbv iota.
    rewrite (trim_start_spaced s Hs). exact Hs.
  - cbn [trim_start]. destruct (graphic_plain c Hg) as (Hsp & -> & _).
    cbn [spaced]. rewrite Hsp, Hg, Hs. reflexivity.
Qed.

Lemma spaced_trim_end (s : string) : forall b,
  spaced b s = true ->
  spaced b (trim_end s) = true /\ ends_in_space (trim_end s) = false.
Proof.
  induction s as [|c s IH]; intros b H; [split; reflexivity|].
  cbn [trim_end].
  destruct (spaced_cases _ _ _ H) as [(-> & -> & Hs)|(Hg & Hs)].
  - destruct (IH true Hs) as [IH1 IH2].
    destruct (trim_end s) as [|d rest]; [split; reflexivity|].
    split; [|exact IH2].
    cbn [spaced] in *. change (is_space space) with true. cbv iota.
    exact IH1.
  - destruct (IH false Hs) as [IH1 IH2].
    destruct (graphic_plain c Hg) as (Hsp & Hw & _).
    destruct (trim_end s) as [|d rest].
    + rewrite Hw. cbn [spaced ends_in_space]. rewrite Hsp, Hg. split; reflexivity.
    + split; [|exact IH2].
      cbn [spaced] in *. rewrite Hsp, Hg. exact IH1.
Qed.

Lemma cleanText_tidy (text : string) : tidy (cleanText text) = true.
Proof.
  unfold cleanText, trim.
  pose proof (collapsed_spaced _ false (replaced_units text)) as H.
  rewrite (spaced_no_newline _ _ false H).
  apply spaced_trim_start in H. apply spaced_trim_end in H as [H1 H2].
  unfold tidy. rewrite H1, H2. reflexivity.
Qed.

(** What the shape means, unit by unit. *)
Lemma spaced_printable (s : string) : forall b c,
  spaced b s = true -> In c (list_ascii_of_string s) ->
  32 <= nat_of_ascii c <= 126.
Proof.
  induction s as [|d s IH]; intros b c H Hin; [destruct Hin|].
  destruct (spaced_cases _ _ _ H) as [(-> & _ & Hs)|(Hg & Hs)];
    (destruct Hin as [<-|Hin]; [|exact (IH _ c Hs Hin)]).
  - replace (nat_of_ascii space) with 32 by reflexivity. lia.
  - unfold graphic in Hg. cbv zeta in Hg. apply andb_true_iff in Hg as [Hlo Hhi].
    apply Nat.leb_le in Hlo. apply Nat.leb_le in Hhi. lia.
Qed.

Lemma spaced_single (s1 : string) : forall b s s2,
  spaced b s = true -> s <> (s1 ++ "  " ++ s2)%string.
Proof.
  induction s1 as [|c s1 IH]; intros b s s2 H Heq; subst s.
  - change (spaced b (String " " (String " " s2)) = true) in H.
    destruct b; vm_compute in H; discriminate H.
  - change (String c s1 ++ "  " ++ s2)%string
      with (String c (s1 ++ "  " ++ s2))%string in H.
    destruct (spaced_cases _ _ _ H) as [(_ & _ & Hs)|(_ & Hs)];
      exact (IH _ _ s2 Hs eq_refl).
Qed.

Lemma ends_in_space_app (s : string) : ends_in_space (s ++ " ") = true.
Proof.
  induction s as [|c s IH]; [reflexivity|].
  change (String c s ++ " ")%string with (String c (s ++ " "))%string.
  cbn [ends_in_space]. destruct (s ++ " ")%string eqn:E; [|exact IH].
  destruct s; discriminate E.
Qed.

(** X14. Whatever the units of the text (below 256, as the strings are
    here), a cleaned text holds only printable ASCII, has no two spaces in
    a row, and neither begins nor ends with a space. *)
Theorem cleanText_shape (text : string) :
  (forall c, In c (list_ascii_of_string (cleanText text)) ->
             32 <= nat_of_ascii c <= 126)
  /\ (forall s1 s2, cleanText text <> (s1 ++ "  " ++ s2)%string)
  /\ (forall s, cleanText text <> (" " ++ s)%string)
  /\ (forall s, cleanText text <> (s ++ " ")%string).
Proof.
  pose proof (cleanText_tidy text) as H. unfold tidy in H.
  apply andb_true_iff in H as [Hs He]. apply negb_true_iff in He.
  split; [|split; [|split]].
  - intros c. exact (spaced_printable _ true c Hs).
  - intros s1 s2. exact (spaced_single s1 true _ s2 Hs).
  - intros s Heq. rewrite Heq in Hs. discriminate Hs.
  - intros s Heq. rewrite Heq, ends_in_space_app in He. discriminate He.
Qed.

Lemma replace_spaced (s : string) : forall b,
  spaced b s = true -> replace_units unprintable s = s.
Proof.
  induction s as [|c s IH]; intros b H; [reflexivity|].
  cbn [replace_units].
  destruct (spaced_cases _ _ _ H) as [(-> & _ & Hs)|(Hg & Hs)].
  - rewrite (IH _ Hs). reflexivity.
  - destruct (graphic_plain c Hg) as (_ & _ & _ & ->). rewrite (IH _ Hs). reflexivity.
Qed.

Lemma collapse_spaced (s : string) : forall b,
  spaced b s = true -> collapse_runs isWhitespace b s = s.
Proof.
  induction s as [|c s IH]; intros b H; [reflexivity|].
  cbn [collapse_runs].
  destruct (spaced_cases _ _ _ H) as [(-> & -> & Hs)|(Hg & Hs)].
  - change (isWhitespace space) with true. cbv iota. rewrite (IH _ Hs). reflexivity.
  - destruct (graphic_plain c Hg) as (_ & -> & _). rewrite (IH _ Hs). reflexivity.
Qed.

Lemma trim_end_spaced (s : string) : forall b,
  spaced b s = true -> ends_in_space s = false -> trim_end s = s.
Proof.
  induction s as [|c s IH]; intros b H He; [reflexivity|].
  cbn [trim_end].
  destruct s as [|d s].
  - cbn [trim_end]. cbn [ends_in_space] in He.
    destruct (spaced_cases _ _ _ H) as [(-> & _ & _)|(Hg & _)]; [discriminate He|].
    destruct (graphic_plain c Hg) as (_ & -> & _). reflexivity.
  - assert (trim_end (String d s) = String d s) as ->; [|reflexivity].
    destruct (spaced_cases _ _ _ H) as [(_ & _ & Hs)|(_ & Hs)];
      exact (IH _ Hs He).
Qed.

Lemma cleanText_of_tidy (s : string) : tidy s = true -> cleanText s = s.
Proof.
  unfold tidy. intros H. apply andb_true_iff in H as [Hs He].
  apply negb_true_iff in He.
  unfold cleanText, trim.
  rewrite (replace_spaced s true Hs).
  rewrite (collapse_spaced s false (spaced_weaken s Hs)).
  rewrite (spaced_no_newline s true false Hs).
  rewrite (trim_start_spaced s Hs).
  exact (trim_end_spaced s true Hs He).
Qed.

(** X15. A text of printable ASCII with single spaces and none at either
    end is left as it is. *)
Theorem cleanText_fixed (s : string) : tidy s = true -> cleanText s = s.
Proof. exact (cleanText_of_tidy s). Qed.

(** X16. Cleaning twice is cleaning once. *)
Theorem cleanText_idempotent (text : string) :
  cleanText (cleanText text) = cleanText text.
Proof. apply cleanText_of_tidy, cleanText_tidy. Qed.

(** The text stored for a legacy DOC file is already clean. *)
Lemma legacy_message_clean :
  cleanText "Legacy DOC format - please convert to DOCX or PDF"
  = "Legacy DOC format - please convert to DOCX or PDF"%string.
Proof. vm_compute. reflexivity. Qed.
End CleanTextFacts.

Lemma cleanText_fixed_witness :
  ParseDocument.cleanText "Senior Go engineer" = "Senior Go engineer"%string.
Proof. apply cleanText_fixed. vm_compute. reflexivity. Defined.

Example cleanText_sample :
  ParseDocument.cleanText
    (String (ascii_of_nat 9) (" Go" ++ String (ascii_of_nat 10)
       (String (ascii_of_nat 10) ("and  C" ++ String (ascii_of_nat 233) " "))))
  = "Go and C"%string.
Proof. vm_compute. reflexivity. Qed.

Section ParseHandlerFacts.
Import ParseDocument.
Variable env : environment.

(** The run of the handler on a request other than the preflight. *)
Lemma parse_handler_exact (req : request) (w : world) :
  method req <> "OPTIONS"%string ->
  handler env req w
  = match json req with
    | Raised error =>
        (w, Returned {| http_status := 500;
                        payload := Some (Failure (error_message error)) |})
    | Returned parsed =>
        match parse_run env parsed w with
        | (w', Returned b) => (w', Returned {| http_status := 200; payload := Some b |})
        | (w', Raised error) =>
            (w', Returned {| http_status := 500;
                             payload := Some (Failure (error_message error)) |})
        end
    end.
Proof.
  intros Hmethod. apply String.eqb_neq in Hmethod.
  unfold handler. rewrite Hmethod. unfold try_catch, bind, lift, ret.
  destruct (json req) as [parsed|error]; [|reflexivity].
  destruct (parse_run env parsed w) as [w' [b|error]]; reflexivity.
Qed.

(** A run that raises has written nothing. *)
Lemma parse_run_raised (parsed : ParseRequest) (w w' : world) (error : thrown) :
  parse_run env parsed w = (w', Raised error) -> w' = w.
Proof.
  unfold parse_run, update_document, bind, lift, ret, raise, modify.
  destruct (fetch env (fileUrl parsed)) as [buffer|e]; [|congruence].
  destruct (extract env (fileType parsed) buffer) as [text|e]; [|congruence].
  destruct (update_error env) as [e|]; [congruence|discriminate].
Qed.

Lemma parse_run_written (parsed : ParseRequest) (buffer text : string) (w : world) :
  fetch env (fileUrl parsed) = Returned buffer ->
  extract env (fileType parsed) buffer = Returned text ->
  update_error env = None ->
  parse_run env parsed w
  = (if String.eqb (documentType parsed) "job"
     then {| jobs := alter (written env (cleanText text)) (documentId parsed) (jobs w);
             resumes := resumes w |}
     else {| jobs := jobs w;
             resumes := alter (written env (cleanText text)) (documentId parsed)
                          (resumes w) |},
     Returned (Success (cleanText text) (String.length (cleanText text)))).
Proof.
  intros Hfetch Hextract Hupdate.
  unfold parse_run, update_document, bind, lift, ret, modify.
  rewrite Hfetch, Hextract, Hupdate. reflexivity.
Qed.

Lemma lookup_written (f : document -> document) (key k : string)
    (m : gmap string document) :
  alter f key m !! k = if String.eqb k key then f <$> m !! k else m !! k.
Proof.
  destruct (String.eqb k key) eqn:Hk.
  - apply String.eqb_eq in Hk. subst k. apply lookup_alter_eq.
  - apply String.eqb_neq in Hk. apply lookup_alter_ne. congruence.
Qed.

(** X17. When the file is downloaded, its text extracted and the store
    takes the update, the answer carries the cleaned text and its length,
    and the one row written is the row [documentId] of [jobs] when
    [documentType] is 'job', of [resumes] for every other value; a store
    without that row is left as it was, and the answer is the same. *)
Theorem parse_success (req : request) (parsed : ParseRequest)
    (buffer text : string) (w : world) :
  method req <> "OPTIONS"%string ->
  json req = Returned parsed ->
  fetch env (fileUrl parsed) = Returned buffer ->
  extract env (fileType parsed) buffer = Returned text ->
  update_error env = None ->
  exists w',
    handler env req w
    = (w', Returned {| http_status := 200;
                       payload := Some (Success (cleanText text)
                                          (String.length (cleanText text))) |})
    /\ (forall k,
          jobs w' !! k
          = if String.eqb (documentType parsed) "job"
               && String.eqb k (documentId parsed)
            then written env (cleanText text) <$> jobs w !! k
            else jobs w !! k)
    /\ (forall k,
          resumes w' !! k
          = if negb (String.eqb (documentType parsed) "job")
               && String.eqb k (documentId parsed)
            then written env (cleanText text) <$> resumes w !! k
            else resumes w !! k).
Proof.
  intros Hmethod Hjson Hfetch Hextract Hupdate.
  rewrite (parse_handler_exact req w Hmethod), Hjson.
  rewrite (parse_run_written parsed buffer text w Hfetch Hextract Hupdate).
  eexists. split; [reflexivity|].
  destruct (String.eqb (documentType parsed) "job"); cbn [jobs resumes negb andb];
    split; intros k; try reflexivity; apply lookup_written.
Qed.

(** X18. The handler never throws: every request is answered, with status
    200 or 500, and an answer of status 500 carries [{success: false,
    error}] and leaves every row as it was. *)
Theorem parse_always_answers (req : request) (w : world) :
  exists w' resp,
    handler env req w = (w', Returned resp)
    /\ (http_status resp = 200
        \/ (http_status resp = 500 /\ w' = w
            /\ exists message, payload resp = Some (Failure message))).
Proof.
  destruct (String.eqb (method req) "OPTIONS") eqn:Hmethod.
  - unfold handler. rewrite Hmethod. do 2 eexists. split; [reflexivity|].
    left. reflexivity.
  - apply String.eqb_neq in Hmethod.
    rewrite (parse_handler_exact req w Hmethod).
    destruct (json req) as [parsed|error].
    + destruct (parse_run env parsed w) as [w' [b|error]] eqn:Hrun.
      * do 2 eexists. split; [reflexivity|]. left. reflexivity.
      * do 2 eexists. split; [reflexivity|]. right.
        split; [reflexivity|]. split; [exact (parse_run_raised _ _ _ _ Hrun)|].
        eexists. reflexivity.
    + do 2 eexists. split; [reflexivity|]. right.
      split; [reflexivity|]. split; [reflexivity|]. eexists. reflexivity.
Qed.

(** X19. When the store reports an error for the update, the extracted
    text is lost: no row is written and the answer is the failure with the
    message of that error. *)
Theorem update_error_fails (req : request) (parsed : ParseRequest)
    (buffer text : string) (error : thrown) (w : world) :
  method req <> "OPTIONS"%string ->
  json req = Returned parsed ->
  fetch env (fileUrl parsed) = Returned buffer ->
  extract env (fileType parsed) buffer = Returned text ->
  update_error env = Some error ->
  handler env req w
  = (w, Returned {| http_status := 500;
                    payload := Some (Failure (error_message error)) |}).
Proof.
  intros Hmethod Hjson Hfetch Hextract Hupdate.
  rewrite (parse_handler_exact req w Hmethod), Hjson.
  unfold parse_run, update_document, bind, lift, ret, raise.
  rewrite Hfetch, Hextract, Hupdate. reflexivity.
Qed.

(** X20. A legacy DOC file is never read: whatever was downloaded, the
    resume is stored as completed with the fixed message as its text. *)
Theorem legacy_doc_stored (req : request) (parsed : ParseRequest)
    (buffer : string) (d : document) (w : world) :
  method req <> "OPTIONS"%string ->
  json req = Returned parsed ->
  fileType parsed = "doc"%string \/ fileType parsed = "application/msword"%string ->
  documentType parsed = "resume"%string ->
  fetch env (fileUrl parsed) = Returned buffer ->
  update_error env = None ->
  resumes w !! documentId parsed = Some d ->
  exists w',
    handler env req w
    = (w', Returned {| http_status := 200;
                       payload :=
                         Some (Success
                                 "Legacy DOC format - please convert to DOCX or PDF"
                                 49) |})
    /\ resumes w' !! documentId parsed
       = Some {| text_column :=
                   Some "Legacy DOC format - please convert to DOCX or PDF"%string;
                 status := "completed";
                 updated_at := now_ISO env |}.
Proof.
  intros Hmethod Hjson Htype Hdoc Hfetch Hupdate Hrow.
  assert (extract env (fileType parsed) buffer
          = Returned "Legacy DOC format - please convert to DOCX or PDF"%string)
    as Hextract.
  { unfold extract. destruct Htype as [-> | ->]; reflexivity. }
  rewrite (parse_handler_exact req w Hmethod), Hjson.
  rewrite (parse_run_written parsed buffer _ w Hfetch Hextract Hupdate).
  rewrite legacy_message_clean, Hdoc.
  eexists. split; [reflexivity|].
  cbn [String.eqb Ascii.eqb Bool.eqb resumes].
  rewrite lookup_alter_eq, Hrow. reflexivity.
Qed.
End ParseHandlerFacts.

(** X21. Every type the upload forms take is one the extraction function
    has a rule for: no file the forms accept is answered with the
    unsupported-type error. *)
Theorem accepted_types_extracted (type : string) :
  UploadForm.includes UploadForm.validTypes type = true ->
  ParseDocument.recognized type = true
  /\ forall env buffer, exists text,
       ParseDocument.extract env type buffer = Returned text.
Proof.
  unfold UploadForm.includes, UploadForm.validTypes. cbn [existsb].
  intros H. repeat (apply orb_true_iff in H as [H|H]);
    try discriminate H; apply String.eqb_eq in H; subst type;
    (split; [reflexivity|]); intros env buffer; eexists; reflexivity.
Qed.

Lemma parse_success_witness :
  exists w',
    ParseDocument.handler ParseSamples.env_online
      (ParseSamples.post
         (UploadForm.parse_request "" "text/plain" "resume-1" "resume"))
      ParseSamples.world0
    = (w', Returned {| ParseDocument.http_status := 200;
                       ParseDocument.payload :=
                         Some (ParseDocument.Success "PNG" 3) |})
    /\ ParseDocument.resumes w' !! "resume-1"%string
       = Some {| ParseDocument.text_column := Some "PNG"%string;
                 ParseDocument.status := "completed";
                 ParseDocument.updated_at := "2025-12-22T09:52:59.000Z" |}.
Proof.
  destruct (parse_success ParseSamples.env_online
              (ParseSamples.post
                 (UploadForm.parse_request "" "text/plain" "resume-1" "resume"))
              (UploadForm.parse_request "" "text/plain" "resume-1" "resume")
              "PNG" "PNG" ParseSamples.world0
              ltac:(intros Heq; discriminate Heq) eq_refl eq_refl eq_refl eq_refl)
    as (w' & Hrun & _ & Hresumes).
  exists w'. split; [exact Hrun|].
  rewrite (Hresumes "resume-1"%string). vm_compute. reflexivity.
Defined.

Lemma update_error_fails_witness :
  ParseDocument.handler ParseSamples.env_store_down
    (ParseSamples.post
       (UploadForm.parse_request "" "text/plain" "resume-1" "resume"))
    ParseSamples.world0
  = (ParseSamples.world0,
     Returned {| ParseDocument.http_status := 500;
                 ParseDocument.payload :=
                   Some (ParseDocument.Failure "Unknown error") |}).
Proof.
  apply (update_error_fails ParseSamples.env_store_down
           (ParseSamples.post
              (UploadForm.parse_request "" "text/plain" "resume-1" "resume"))
           (UploadForm.parse_request "" "text/plain" "resume-1" "resume")
           "PNG" "PNG" OtherValue ParseSamples.world0).
  - intros Heq. discriminate Heq.
  - reflexivity.
  - reflexivity.
  - reflexivity.
  - reflexivity.
Defined.

Lemma legacy_doc_stored_witness :
  exists w',
    ParseDocument.handler ParseSamples.env_online
      (ParseSamples.post
         (UploadForm.parse_request "" "application/msword" "resume-1" "resume"))
      ParseSamples.world0
    = (w', Returned {| ParseDocument.http_status := 200;
                       ParseDocument.payload :=
                         Some (ParseDocument.Success
                                 "Legacy DOC format - please convert to DOCX or PDF"
                                 49) |})
    /\ ParseDocument.resumes w' !! "resume-1"%string
       = Some {| ParseDocument.text_column :=
                   Some "Legacy DOC format - please convert to DOCX or PDF"%string;
                 ParseDocument.status := "completed";
                 ParseDocument.updated_at := "2025-12-22T09:52:59.000Z" |}.
Proof.
  apply (legacy_doc_stored ParseSamples.env_online
           (ParseSamples.post
              (UploadForm.parse_request "" "application/msword" "resume-1" "resume"))
           (UploadForm.parse_request "" "application/msword" "resume-1" "resume")
           "PNG" ParseSamples.pending ParseSamples.world0).
  - intros Heq. discriminate Heq.
  - reflexivity.
  - right. reflexivity.
  - reflexivity.
  - reflexivity.
  - reflexivity.
  - vm_compute. reflexivity.
Defined.

Lemma accepted_types_extracted_witness :
  ParseDocument.recognized "application/msword" = true
  /\ forall env buffer, exists text,
       ParseDocument.extract env "application/msword" buffer = Returned text.
Proof. apply accepted_types_extracted. reflexivity. Defined.
